(** * parens: a shallow embedding of the expression evaluator, the basic
      analyzer, the special-form parsers and two reader macros.

    Source functions embedded here:
    - the expression nodes ConstExpr, QuoteExpr, DefExpr, IfExpr, DoExpr,
      InvokeExpr and GoExpr with their [Eval] methods;
    - [BasicAnalyzer.Analyze] and [BasicAnalyzer.analyzeSeq];
    - the special-form parsers [parseQuoteExpr], [parseDefExpr], [parseGoExpr];
    - the reader macros [readNumber] and [quoteFormReader].

    Go values of interface type [value.Any] are an inductive type with one
    constructor for the nil interface value; Go's [(value, error)] results
    are a sum; [*Env] is threaded as explicit state. *)

From Stdlib Require Import ZArith List String Ascii Bool Lia Wf_nat.
From stdpp Require Import gmap strings pretty.

Set Warnings "-register-all".

Import ListNotations.
Local Open Scope Z_scope.
Local Open Scope string_scope.

(** ** Go preliminaries *)

(** [rune] is an alias of [int32]. *)
Definition rune : Type := Z.

(** Values of Go's [error] interface that this code base creates.  Sentinel
    errors ([io.EOF], [ErrSkip], ...) are compared by identity in Go, so each
    is a constructor of its own; [errors.New] at a use site is never equal to
    a sentinel.  [ErrStackDepth] is the spec's stack-depth-exceeded cause.
    [Error] is the struct [Error{Cause, Message, Form, Rune}] of both
    packages, a field left out in Go being its zero value here. *)
Inductive error : Type :=
| io_EOF
| ErrSkip
| ErrEOF
| ErrNumberFormat
| ErrUnmatchedDelimiter
| ErrNotFound
| ErrNotInvokable
| ErrInvalidBindName
| ErrStackDepth
| errors_New (text : string)
| fmt_Errorf_w (wrapped : error) (arg : string)
| Error (Cause : error) (Message : string) (Form : string) (Rune : rune).

(** A Go result pair [(v, err)] with the convention [err != nil] first. *)
Inductive Result (A : Type) : Type :=
| Ok (v : A)
| Err (e : error).
Arguments Ok {A} v.
Arguments Err {A} e.

(** ** package value *)

Module value.

(** Identifies a host value that implements [Invokable]. *)
Definition FnId : Type := string.

Inductive Any : Type :=
| nilAny                      (* the nil interface value *)
| Nil                         (* value.Nil{} *)
| Bool (b : bool)
| Int64 (i : Z)
| Float64 (bits : Z)
| Char (r : rune)
| String (s : string)
| Keyword (s : string)
| Symbol (s : string)
| List (items : list Any)
| Fn (f : FnId).

(** Modelled from the spec: value.IsTruthy is not among the sources.  "Only
    Nil and boolean-false are falsy; every other value (including numeric
    zero) is truthy"; the nil interface value is the spec's "Nil-equivalent
    absence". *)
Definition IsTruthy (v : Any) : bool :=
  match v with
  | nilAny => false
  | Nil => false
  | Bool b => b
  | _ => true
  end.

(** Modelled from the spec: the nil interface value and [Nil{}] are the two
    representations of the language's Nil. *)
Definition IsNil (v : Any) : bool :=
  match v with
  | nilAny | Nil => true
  | _ => false
  end.

(** Modelled from the spec: the Seq capability of a list, "first() (returns
    Nil-equivalent absence on empty)". *)
Definition First (seq : list Any) : Result Any :=
  match seq with
  | [] => Ok nilAny
  | v :: _ => Ok v
  end.

(** Modelled from the spec: "rest()/next() (returns remaining sequence)". *)
Definition Next (seq : list Any) : Result (list Any) := Ok (tail seq).

(** Modelled from the spec: "count()" of a list, which is countable. *)
Definition Count (seq : list Any) : Result Z := Ok (Z.of_nat (length seq)).

(** Modelled from the spec: [value.NewList] wraps the forms read "as a Seq". *)
Definition NewList (forms : list Any) : Result Any := Ok (List forms).

End value.

(** ** strings.TrimSpace *)

Definition bytes (l : list nat) : string :=
  fold_right (fun n s => String (ascii_of_nat n) s) EmptyString l.

(** UTF-8 encodings of the code points for which [unicode.IsSpace] holds:
    tab, LF, VT, FF, CR, space, U+0085, U+00A0, U+1680, U+2000..U+200A,
    U+2028, U+2029, U+202F, U+205F, U+3000. *)
Definition spaceEncodings : list string :=
  map bytes
    [ [9]; [10]; [11]; [12]; [13]; [32]; [194; 133]; [194; 160];
      [225; 154; 128];
      [226; 128; 128]; [226; 128; 129]; [226; 128; 130]; [226; 128; 131];
      [226; 128; 132]; [226; 128; 133]; [226; 128; 134]; [226; 128; 135];
      [226; 128; 136]; [226; 128; 137]; [226; 128; 138];
      [226; 128; 168]; [226; 128; 169]; [226; 128; 175]; [226; 129; 159];
      [227; 128; 128] ]%nat.

Fixpoint stripPrefix (p s : string) : option string :=
  match p, s with
  | EmptyString, _ => Some s
  | String a p', String b s' => if Ascii.eqb a b then stripPrefix p' s' else None
  | String _ _, EmptyString => None
  end.

(** Drops one leading white-space rune, if there is one. *)
Fixpoint stripOneOf (encs : list string) (s : string) : option string :=
  match encs with
  | [] => None
  | e :: encs' =>
      match stripPrefix e s with
      | Some s' => Some s'
      | None => stripOneOf encs' s
      end
  end.

Fixpoint trimLeftN (encs : list string) (n : nat) (s : string) : string :=
  match n with
  | O => s
  | S n' =>
      match stripOneOf encs s with
      | Some s' => trimLeftN encs n' s'
      | None => s
      end
  end.

Definition strRev (s : string) : string :=
  string_of_list_ascii (rev (list_ascii_of_string s)).

Definition TrimLeftSpace (s : string) : string :=
  trimLeftN spaceEncodings (String.length s) s.

Definition TrimRightSpace (s : string) : string :=
  strRev (trimLeftN (map strRev spaceEncodings) (String.length s) (strRev s)).

Definition TrimSpace (s : string) : string :=
  TrimRightSpace (TrimLeftSpace s).

(** ** unicode/utf8 *)

Definition byteZ (a : ascii) : Z := Z.of_nat (nat_of_ascii a).

Definition inRange (lo hi : Z) (a : ascii) : bool :=
  (lo <=? byteZ a)%Z && (byteZ a <=? hi)%Z.

(** The six payload bits of a continuation byte. *)
Definition contBits (a : ascii) : Z := Z.land (byteZ a) 63.

(** [utf8.DecodeRuneInString]: the first rune of [s] and the text after it.
    A byte that starts no well-formed sequence is U+FFFD of width one; the
    second byte of a sequence has the narrowed range that rules out overlong
    forms, surrogates and code points above U+10FFFF. *)
Definition DecodeRune (s : string) : option (rune * string) :=
  match s with
  | EmptyString => None
  | String b0 s1 =>
      let z := byteZ b0 in
      let bad := Some (65533, s1)%Z in
      if (z <? 128)%Z then Some (z, s1)
      else if (194 <=? z)%Z && (z <=? 223)%Z then
        match s1 with
        | String b1 s2 =>
            if inRange 128 191 b1 then
              Some (Z.lor (Z.shiftl (Z.land z 31) 6) (contBits b1), s2)
            else bad
        | _ => bad
        end
      else if (224 <=? z)%Z && (z <=? 239)%Z then
        let lo := if (z =? 224)%Z then 160%Z else 128%Z in
        let hi := if (z =? 237)%Z then 159%Z else 191%Z in
        match s1 with
        | String b1 (String b2 s3) =>
            if inRange lo hi b1 && inRange 128 191 b2 then
              Some (Z.lor (Z.shiftl (Z.land z 15) 12)
                      (Z.lor (Z.shiftl (contBits b1) 6) (contBits b2)), s3)
            else bad
        | _ => bad
        end
      else if (240 <=? z)%Z && (z <=? 244)%Z then
        let lo := if (z =? 240)%Z then 144%Z else 128%Z in
        let hi := if (z =? 244)%Z then 143%Z else 191%Z in
        match s1 with
        | String b1 (String b2 (String b3 s4)) =>
            if inRange lo hi b1 && inRange 128 191 b2 && inRange 128 191 b3 then
              Some (Z.lor (Z.shiftl (Z.land z 7) 18)
                      (Z.lor (Z.shiftl (contBits b1) 12)
                         (Z.lor (Z.shiftl (contBits b2) 6) (contBits b3))), s4)
            else bad
        | _ => bad
        end
      else bad
  end.

(** [utf8.EncodeRune] for a valid code point. *)
Definition EncodeRune (r : rune) : string :=
  let cont (z : Z) := Z.to_nat (Z.lor 128 (Z.land z 63)) in
  if (r <? 128)%Z then bytes [Z.to_nat r]
  else if (r <? 2048)%Z then
    bytes [Z.to_nat (Z.lor 192 (Z.shiftr r 6)); cont r]
  else if (r <? 65536)%Z then
    bytes [Z.to_nat (Z.lor 224 (Z.shiftr r 12)); cont (Z.shiftr r 6); cont r]
  else
    bytes [Z.to_nat (Z.lor 240 (Z.shiftr r 18)); cont (Z.shiftr r 12);
           cont (Z.shiftr r 6); cont r].

(** ** fmt.Sprintf with a format and no operand

    [doPrintf] of package fmt with an empty operand list, which is how
    [BasicAnalyzer.Analyze] calls it.  Text outside verbs is copied; a verb
    finds no operand. *)

Module fmt.

(** The flags that may follow the percent sign. *)
Definition isFlag (c : ascii) : bool :=
  existsb (Ascii.eqb c) ["#"; "0"; "+"; "-"; " "]%char.

Fixpoint skipFlags (format : string) : string :=
  match format with
  | String c rest => if isFlag c then skipFlags rest else format
  | EmptyString => EmptyString
  end.

(** [tooLarge]: the bound on widths, precisions and argument indexes. *)
Definition tooLarge (x : Z) : bool :=
  (1000000 <? x)%Z || (x <? -1000000)%Z.

(** [parsenum(s, start, end)] on the bytes [s[start:end]]: whether a number
    was read, and the bytes after it.  On overflow the position returned is
    [end], so that no byte is left. *)
Fixpoint parsenum (s : string) (num : Z) (isnum : bool) : bool * string :=
  match s with
  | String c rest =>
      if inRange 48 57 c then
        if tooLarge num then (false, EmptyString)
        else parsenum rest (num * 10 + (byteZ c - 48))%Z true
      else (isnum, s)
  | EmptyString => (isnum, EmptyString)
  end.

(** The bytes before the first closing bracket and the bytes after it. *)
Fixpoint splitBracket (s : string) : option (string * string) :=
  match s with
  | EmptyString => None
  | String c rest =>
      if Ascii.eqb c "]" then Some (EmptyString, rest)
      else
        match splitBracket rest with
        | Some (seg, after) => Some (String c seg, after)
        | None => None
        end
  end.

(** [parseArgNumber(format)] for a [format] that starts with an opening
    bracket: the format after the index, and whether the index is a
    number. *)
Definition parseArgNumber (format : string) : string * bool :=
  match format with
  | EmptyString => (EmptyString, false)
  | String _ body =>
      if (String.length format <? 3)%nat then (body, false)
      else
        match splitBracket body with
        | Some (seg, after) =>
            let '(ok, unread) := parsenum seg 0 false in
            (after, ok && String.eqb unread EmptyString)
        | None => (body, false)
        end
  end.

(** [argNumber] with no operand: [None] when the format has no argument
    index here; otherwise the format after the index and whether an index was
    found.  No index is in range, so [goodArgNum] becomes false whenever
    there is an opening bracket. *)
Definition argNumber (format : string) : option (string * bool) :=
  match format with
  | String "[" _ => Some (parseArgNumber format)
  | _ => None
  end.

(** One verb, after its percent sign: the text written for it and the format
    that is left.  [intFromArg] finds no operand, so a [*] is a bad width or a
    bad precision; the verb itself is missing its operand, or has a bad
    index when [goodArgNum] is false. *)
Definition verb (format : string) : string * string :=
  let s1 := skipFlags format in
  let '(s2, afterIndex2, good2) :=
    match argNumber s1 with
    | Some (s, found) => (s, found, false)
    | None => (s1, false, true)
    end in
  let '(out3, s3, afterIndex3, good3) :=
    match s2 with
    | String "*" s => ("%!(BADWIDTH)", s, false, good2)
    | _ =>
        let '(widPresent, s) := parsenum s2 0 false in
        (EmptyString, s, afterIndex2,
         good2 && negb (afterIndex2 && widPresent))
    end in
  let '(out4, s4, afterIndex4, good4) :=
    match s3 with
    | String "." s =>
        let good := good3 && negb afterIndex3 in
        let '(s', afterIndex, good) :=
          match argNumber s with
          | Some (s', found) => (s', found, false)
          | None => (s, false, good)
          end in
        match s' with
        | String "*" s'' => ("%!(BADPREC)", s'', false, good)
        | _ => (EmptyString, snd (parsenum s' 0 false), afterIndex, good)
        end
    | _ => (EmptyString, s3, afterIndex3, good3)
    end in
  let '(s5, good5) :=
    if afterIndex4 : bool then (s4, good4)
    else
      match argNumber s4 with
      | Some (s, _) => (s, false)
      | None => (s4, good4)
      end in
  match DecodeRune s5 with
  | None => (out3 +:+ out4 +:+ "%!(NOVERB)", EmptyString)
  | Some (v, rest) =>
      (out3 +:+ out4 +:+
       (if (v =? 37)%Z then "%"
        else "%!" +:+ EncodeRune v +:+
             (if good5 : bool then "(MISSING)" else "(BADINDEX)")),
       rest)
  end.

(** The [formatLoop]; [n] bounds the number of steps, which the length of
    the format does. *)
Fixpoint Sprintf_loop (n : nat) (format : string) : string :=
  match n with
  | O => EmptyString
  | S n' =>
      match format with
      | EmptyString => EmptyString
      | String c rest =>
          if Ascii.eqb c "%" then
            let '(out, rest') := verb rest in out +:+ Sprintf_loop n' rest'
          else String c (Sprintf_loop n' rest)
      end
  end.

(** [fmt.Sprintf(format)]. *)
Definition Sprintf (format : string) : string :=
  Sprintf_loop (String.length format) format.

End fmt.

(** ** package parens: the environment *)

Record stackFrame : Type := mkFrame {
  Name : string;
  Args : list value.Any;
  ConcurrentMap : gmap string value.Any
}.

(** Modelled from the spec: a goroutine started by [GoExpr.Eval] is the forked
    environment's private part ("an empty, independent call stack" and the
    depth bound) and the form it evaluates.  The global store is not copied:
    "forks share the global store (same underlying storage)", the one of
    [Env]. *)
Record goroutine : Type := mkGo {
  goStack : list stackFrame;
  goMaxDepth : Z;
  goForm : value.Any
}.

(** Modelled from the spec: the Env struct is not among the sources.  It has
    "a global binding store shared by value across all forks", "a private
    call-frame stack bounded by a configured maximum depth" and a factory of
    local scopes; [spawned] records the goroutines started so far. *)
Record Env : Type := mkEnv {
  globals : gmap string value.Any;
  stack : list stackFrame;
  maxDepth : Z;
  spawned : list goroutine
}.

(** Modelled from the spec: [Env.setGlobal] is not among the sources.
    "set_global(name, value): unconditional store into the global binding
    store". *)
Definition setGlobal (name : string) (v : value.Any) (env : Env) : Env :=
  {| globals := <[name := v]> (globals env);
     stack := stack env;
     maxDepth := maxDepth env;
     spawned := spawned env |}.

(** ** The state-and-error monad

    A Go function that works on a pointer receiver ([*Env], [*Reader]) and
    returns [(value, error)].  [None] stands for a call that does not return:
    the fuel given to a recursive definition ran out, or the Go runtime
    panics. *)
Definition StateErr (St A : Type) : Type := St -> option (St * Result A).

Definition ret {St A} (v : A) : StateErr St A := fun st => Some (st, Ok v).

Definition raise {St A} (e : error) : StateErr St A := fun st => Some (st, Err e).

Definition bind {St A B} (m : StateErr St A) (k : A -> StateErr St B)
    : StateErr St B :=
  fun st =>
    match m st with
    | None => None
    | Some (st', Ok v) => k v st'
    | Some (st', Err e) => Some (st', Err e)
    end.

Notation "x <- m ;; k" := (bind m (fun x => k))
  (at level 100, m at next level, right associativity).

(** Lifts a pure Go result. *)
Definition lift {St A} (r : Result A) : StateErr St A := fun st => Some (st, r).

(** Computations on [*Env]. *)
Definition M : Type -> Type := StateErr Env.

(** ** expr.go *)

Inductive Expr : Type :=
| ConstExpr (Const : value.Any)
| QuoteExpr (Form : value.Any)
| DefExpr (Name : string) (Value : value.Any)
| IfExpr (Test Then Else : value.Any)
| DoExpr (Forms : list value.Any)
| InvokeExpr (Name : string) (Target : Expr) (Args : list Expr)
| GoExpr (Value : value.Any)
| nilExpr.                      (* the nil value of the Expr interface *)

Definition ConstExpr_Eval (Const : value.Any) : M value.Any := ret Const.

Definition QuoteExpr_Eval (Form : value.Any) : M value.Any := ret Form.

Definition DefExpr_Eval (Name : string) (Value : value.Any) : M value.Any :=
  let Name := TrimSpace Name in
  if String.eqb Name "" then
    raise (fmt_Errorf_w ErrInvalidBindName Name)
  else
    fun env => Some (setGlobal Name Value env, Ok (value.Symbol Name)).

(** [reflect.TypeOf(v)] as printed by [%s]. *)
Definition TypeOf (v : value.Any) : string :=
  match v with
  | value.nilAny => "%!s(<nil>)"
  | value.Nil => "value.Nil"
  | value.Bool _ => "value.Bool"
  | value.Int64 _ => "value.Int64"
  | value.Float64 _ => "value.Float64"
  | value.Char _ => "value.Char"
  | value.String _ => "*value.String"
  | value.Keyword _ => "*value.Keyword"
  | value.Symbol _ => "*value.Symbol"
  | value.List _ => "*value.List"
  | value.Fn f => f
  end.

(** Modelled from the spec: [Env.push] is not among the sources.  "push
    enforces the depth bound": "pushing fails if it would exceed the
    configured maximum depth, reporting a stack-depth-exceeded error".  The
    top of the stack is the head of the list. *)
Definition push (frame : stackFrame) (env : Env) : Env * option error :=
  if (maxDepth env <=? Z.of_nat (length (stack env)))%Z then
    (env, Some ErrStackDepth)
  else
    ({| globals := globals env;
        stack := frame :: stack env;
        maxDepth := maxDepth env;
        spawned := spawned env |}, None).

(** Modelled from the spec: [Env.pop] is not among the sources.  The frame is
    "popped unconditionally when the invocation returns". *)
Definition pop (env : Env) : Env :=
  {| globals := globals env;
     stack := tail (stack env);
     maxDepth := maxDepth env;
     spawned := spawned env |}.

(** Modelled from the spec: [Env.fork] is not among the sources.  It "returns
    a new environment instance referencing the same global store, with an
    empty call stack and the same Analyzer/Expander configuration". *)
Definition fork (env : Env) : list stackFrame * Z := ([], maxDepth env).

(** Modelled from the spec: [Env.resolve] is not among the sources.  "Search
    the current frame's local scope first, then the global store; absence
    yields a not-found signal (not an error)": the nil interface value. *)
Definition resolve (name : string) (env : Env) : value.Any :=
  let fromGlobals := default value.nilAny (globals env !! name) in
  match stack env with
  | frame :: _ => default fromGlobals (ConcurrentMap frame !! name)
  | [] => fromGlobals
  end.

(** Modelled from the spec: [Env.mapFactory] is "a factory for constructing
    fresh concurrent-safe local scopes". *)
Definition mapFactory (env : Env) : gmap string value.Any := ∅.

(** [go func() { ... }()] with the forked environment [child]. *)
Definition spawn (child : list stackFrame * Z) (form : value.Any) (env : Env) : Env :=
  {| globals := globals env;
     stack := stack env;
     maxDepth := maxDepth env;
     spawned := (spawned env ++ [mkGo (fst child) (snd child) form])%list |}.

(** The remaining [Eval] methods call back into the environment
    ([env.Eval]) and into other nodes ([Expr.Eval] through the interface).
    Each is written against those two entry points, passed as [eval] and
    [evalExpr]; [Env_Eval], [Analyze] and [Expr_Eval] below tie the knot. *)

Section Evaluator.

(** The configured Expander; its rewriting rules are outside this code. *)
Variable Expand : value.Any -> M value.Any.

(** [Invokable.Invoke] of the host values.  The first argument is
    [env.Eval], which an implementation may call on any form. *)
Variable Invoke :
  value.FnId -> (value.Any -> M value.Any) -> list value.Any -> M value.Any.

(** [fmt.Sprintf("%s", target)], a diagnostic name. *)
Variable Sprintf_s : Expr -> string.

Definition IfExpr_Eval (eval : value.Any -> M value.Any)
    (Test Then Else : value.Any) : M value.Any :=
  test <- eval Test ;;
  if value.IsTruthy test then eval Then else eval Else.

(** The [for _, form := range de.Forms] loop; [res] is the loop variable
    declared before it. *)
Fixpoint DoExpr_loop (eval : value.Any -> M value.Any)
    (Forms : list value.Any) (res : value.Any) : M value.Any :=
  match Forms with
  | [] => ret res
  | form :: rest => r <- eval form ;; DoExpr_loop eval rest r
  end.

Definition DoExpr_Eval (eval : value.Any -> M value.Any)
    (Forms : list value.Any) : M value.Any :=
  res <- DoExpr_loop eval Forms value.nilAny ;;
  match res with
  | value.nilAny => ret value.Nil
  | _ => ret res
  end.

(** The [for _, ae := range ie.Args] loop, appending to [args]. *)
Fixpoint InvokeExpr_args (evalExpr : Expr -> M value.Any)
    (Args : list Expr) (args : list value.Any) : M (list value.Any) :=
  match Args with
  | [] => ret args
  | ae :: rest =>
      v <- evalExpr ae ;; InvokeExpr_args evalExpr rest (args ++ [v])%list
  end.

(** [env.push(...)] is a statement: whatever it reports is dropped, and the
    deferred [env.pop()] runs when [fn.Invoke] has returned. *)
Definition InvokeExpr_Eval (evalExpr : Expr -> M value.Any)
    (eval : value.Any -> M value.Any)
    (Name : string) (Target : Expr) (Args : list Expr) : M value.Any :=
  val <- evalExpr Target ;;
  match val with
  | value.Fn fn =>
      args <- InvokeExpr_args evalExpr Args [] ;;
      fun env =>
        let env1 := fst (push (mkFrame Name args (mapFactory env)) env) in
        match Invoke fn eval args env1 with
        | None => None
        | Some (env2, r) => Some (pop env2, r)
        end
  | _ =>
      raise (Error ErrNotInvokable
               ("value of type '" +:+ TypeOf val +:+ "' is not invokable")
               "" 0)
  end.

(** The goroutine is recorded with the form it will evaluate; its
    [(value, error)] pair is assigned to [_, _]. *)
Definition GoExpr_Eval (Value : value.Any) : M value.Any :=
  fun env =>
    let child := fork env in
    Some (spawn child Value env, Ok value.nilAny).

(** Dynamic dispatch of [Expr.Eval]. *)
Definition Expr_Eval_body (evalExpr : Expr -> M value.Any)
    (eval : value.Any -> M value.Any) (e : Expr) : M value.Any :=
  match e with
  | ConstExpr c => ConstExpr_Eval c
  | QuoteExpr f => QuoteExpr_Eval f
  | DefExpr n v => DefExpr_Eval n v
  | IfExpr t a b => IfExpr_Eval eval t a b
  | DoExpr fs => DoExpr_Eval eval fs
  | InvokeExpr n t args => InvokeExpr_Eval evalExpr eval n t args
  | GoExpr v => GoExpr_Eval v
  | nilExpr => fun _ => None   (* a method call on a nil interface panics *)
  end.

(** ** The special-form parsers *)

(** [ParseSpecial]: the environment's [Eval] is what a parser may use of its
    first argument. *)
Definition ParseSpecial : Type :=
  (value.Any -> M value.Any) -> list value.Any -> M Expr.

Definition parseQuoteExpr : ParseSpecial := fun _ args =>
  count <- lift (value.Count args) ;;
  if negb (count =? 1)%Z then
    raise (Error (errors_New "invalid def form")
             ("requires exactly 1 argument, got " +:+ pretty count) "" 0)
  else
    first <- lift (value.First args) ;;
    ret (QuoteExpr first).

Definition parseDefExpr : ParseSpecial := fun eval args =>
  count <- lift (value.Count args) ;;
  if negb (count =? 2)%Z then
    raise (Error (errors_New "invalid def form")
             ("requires exactly 2 arguments, got " +:+ pretty count) "" 0)
  else
    first <- lift (value.First args) ;;
    match first with
    | value.Symbol sym =>
        rest <- lift (value.Next args) ;;
        second <- lift (value.First rest) ;;
        res <- eval second ;;
        ret (DefExpr sym res)
    | _ =>
        raise (Error (errors_New "invalid def form")
                 ("first arg must be symbol, not '" +:+ TypeOf first +:+ "'")
                 "" 0)
    end.

Definition parseGoExpr : ParseSpecial := fun _ args =>
  v <- lift (value.First args) ;;
  match v with
  | value.nilAny =>
      raise (Error (errors_New "go expt requires exactly one argument") "" "" 0)
  | _ => ret (GoExpr v)
  end.

(** ** The analyzer *)

Record BasicAnalyzer : Type := mkAnalyzer {
  SpecialForms : gmap string ParseSpecial
}.

(** The table that [WithAnalyzer(nil)] installs. *)
Definition defaultAnalyzer : BasicAnalyzer :=
  mkAnalyzer (<["go" := parseGoExpr]>
              (<["def" := parseDefExpr]>
               (<["quote" := parseQuoteExpr]> ∅))).

Variable ba : BasicAnalyzer.

(** Modelled from the spec: [value.ForEach] is not among the sources.  It
    visits "every element of the sequence" in order and stops at the first
    error or when the callback reports [done].  The variables the callback
    closes over are the state [st]. *)
Fixpoint ForEach {St : Type} (seq : list value.Any)
    (call : value.Any -> St -> M (bool * St)) (st : St) : M St :=
  match seq with
  | [] => ret st
  | item :: rest =>
      r <- call item st ;;
      if fst r then ret (snd r) else ForEach rest call (snd r)
  end.

(** The parser registered for [first], when [first] is a symbol that names a
    special form. *)
Definition specialOf (first : value.Any) : option ParseSpecial :=
  match first with
  | value.Symbol sym => SpecialForms ba !! sym
  | _ => None
  end.

(** The first statement of the closure passed to [value.ForEach]: as long as
    the captured [target] is the nil [Expr], the call target [first] is
    analyzed. *)
Definition analyzeSeq_target (analyze : value.Any -> M Expr)
    (first : value.Any) (target : Expr) : M Expr :=
  match target with
  | nilExpr => analyze first
  | _ => ret target
  end.

(** The closure passed to [value.ForEach]; [target] and [args] are the
    captured variables. *)
Definition analyzeSeq_item (analyze : value.Any -> M Expr) (first : value.Any)
    (item : value.Any) (st : Expr * list Expr)
    : M (bool * (Expr * list Expr)) :=
  target <- analyzeSeq_target analyze first (fst st) ;;
  arg <- analyze item ;;
  ret (false, (target, (snd st ++ [arg])%list)).

(** When an element fails to analyze, the Go function returns the error
    together with the node built so far; callers look at the error first, so
    the result here is the error alone. *)
Definition analyzeSeq (analyze : value.Any -> M Expr)
    (eval : value.Any -> M value.Any) (seq : list value.Any) : M Expr :=
  first <- lift (value.First seq) ;;
  match specialOf first with
  | Some parse =>
      next <- lift (value.Next seq) ;;
      parse eval next
  | None =>
      st <- ForEach seq (analyzeSeq_item analyze first) (nilExpr, []) ;;
      ret (InvokeExpr (Sprintf_s (fst st)) (fst st) (snd st))
  end.

Definition BasicAnalyzer_Analyze (analyze : value.Any -> M Expr)
    (eval : value.Any -> M value.Any) (form : value.Any) : M Expr :=
  match form with
  | value.Symbol f =>
      fun env =>
        match resolve f env with
        | value.nilAny =>
            Some (env, Err (Error ErrNotFound (fmt.Sprintf f) "" 0))
        | v => Some (env, Ok (ConstExpr v))
        end
  | value.List f =>
      cnt <- lift (value.Count f) ;;
      if (cnt =? 0)%Z then ret (ConstExpr form)
      else analyzeSeq analyze eval f
  | _ => ret (ConstExpr form)
  end.

(** ** The pipeline *)

(** Modelled from the spec: [Env.Eval] is not among the sources.  "Pass form
    through the configured Expander, then through the configured Analyzer to
    obtain an Expr, then evaluate that Expr against env."  One unit of fuel
    is spent per nested call; [Analyze] and [Expr_Eval] are the source's
    [BasicAnalyzer.Analyze] and [Expr.Eval] with their recursive calls. *)
Fixpoint Env_Eval (fuel : nat) (form : value.Any) {struct fuel} : M value.Any :=
  match fuel with
  | O => fun _ => None
  | S n =>
      expanded <- Expand form ;;
      expr <- Analyze n expanded ;;
      Expr_Eval n expr
  end

with Analyze (fuel : nat) (form : value.Any) {struct fuel} : M Expr :=
  match fuel with
  | O => fun _ => None
  | S n => BasicAnalyzer_Analyze (Analyze n) (Env_Eval n) form
  end

with Expr_Eval (fuel : nat) (e : Expr) {struct fuel} : M value.Any :=
  match fuel with
  | O => fun _ => None
  | S n => Expr_Eval_body (Expr_Eval n) (Env_Eval n) e
  end.

(** Modelled from the spec: one run of a goroutine [g], "asynchronously" and
    "without blocking the caller".  Its form is evaluated against the shared
    global store and the goroutine's own stack; the value and the error are
    dropped, as [_, _ = child.Eval(ge.Value)] has it, and only the global
    store carries its effects.  A goroutine that does not finish within
    [fuel] has had no effect yet. *)
Definition runGoroutine (fuel : nat) (g : goroutine) (env : Env) : Env :=
  let child := mkEnv (globals env) (goStack g) (goMaxDepth g) [] in
  match Env_Eval fuel (goForm g) child with
  | None => env
  | Some (child', _) =>
      mkEnv (globals child') (stack env) (maxDepth env)
            (spawned env ++ spawned child')%list
  end.

End Evaluator.

(** ** package reader *)

Module reader.

(** [strings.ContainsRune(s, r)] for an ASCII rune [r], which no byte of a
    multi-byte UTF-8 sequence equals. *)
Definition ContainsRune (s : string) (r : ascii) : bool :=
  existsb (Ascii.eqb r) (list_ascii_of_string s).

(** The macros are written against the methods of [*Reader] they call. *)
Section Macros.

Variable Reader : Type.

(** [rd.One()], [rd.Token(init)] and [rd.NextRune()]. *)
Variable One : StateErr Reader value.Any.
Variable Token : rune -> StateErr Reader string.
Variable NextRune : StateErr Reader rune.

(** [rd.Container(end, formType, f)] with the forms handed to [f] as its
    result. *)
Variable Container : rune -> string -> StateErr Reader (list value.Any).

(** The two number parsers of this package that [readNumber] delegates
    to, and [strconv.ParseFloat], [strconv.ParseInt]. *)
Variable parseScientific parseRadix : string -> Result value.Any.
Variable strconv_ParseFloat : string -> Z -> Result Z.
Variable strconv_ParseInt : string -> Z -> Z -> Result Z.

Definition Macro : Type := rune -> StateErr Reader value.Any.

Definition UnmatchedDelimiter : Macro := fun initRune =>
  raise (Error ErrUnmatchedDelimiter "" "" initRune).

Definition readNumber : Macro := fun init =>
  numStr <- Token init ;;
  let decimalPoint := ContainsRune numStr "." in
  let isRadix := ContainsRune numStr "r" in
  let isScientific := ContainsRune numStr "e" in
  if isRadix && (decimalPoint || isScientific) then
    raise (Error ErrNumberFormat "" numStr 0)
  else if isScientific then
    lift (parseScientific numStr)
  else if decimalPoint then
    match strconv_ParseFloat numStr 64 with
    | Err _ => raise (Error ErrNumberFormat "" numStr 0)
    | Ok v => ret (value.Float64 v)
    end
  else if isRadix then
    lift (parseRadix numStr)
  else
    match strconv_ParseInt numStr 0 64 with
    | Err _ => raise (Error ErrNumberFormat "" numStr 0)
    | Ok v => ret (value.Int64 v)
    end.

Definition readSymbol : Macro := fun init =>
  s <- Token init ;;
  ret (value.Symbol s).

(** The [for] loop ends at a line feed or at the first error of
    [NextRune]; [n] bounds the number of runes looked at. *)
Fixpoint readComment_loop (n : nat) : StateErr Reader value.Any :=
  match n with
  | O => fun _ => None
  | S n' =>
      r <- NextRune ;;
      if (r =? 10)%Z then raise ErrSkip else readComment_loop n'
  end.

Definition readKeyword : Macro := fun _ =>
  token <- Token (-1) ;;
  ret (value.Keyword token).

Definition readList : Macro := fun _ =>
  forms <- Container 41 "list" ;;
  lift (value.NewList forms).

Definition quoteFormReader (expandFunc : string) : Macro := fun _ rd =>
  match One rd with
  | None => None
  | Some (rd', Err err) =>
      match err with
      | io_EOF => Some (rd', Err (Error ErrEOF "" expandFunc 0))
      | ErrSkip =>
          Some (rd', Err (Error (errors_New "cannot quote a no-op form")
                            "" expandFunc 0))
      | _ => Some (rd', Err err)
      end
  | Some (rd', Ok expr) =>
      Some (rd', value.NewList [value.Symbol expandFunc; expr])
  end.

End Macros.

(** *** A reader over a list of runes *)

(** Modelled from the spec: the Reader holds "a dispatch table of macros keyed
    by trigger character"; these are the macros of this file that the table
    can hold. *)
Inductive macro : Type :=
| mComment
| mKeyword
| mList
| mQuote (expandFunc : string)
| mUnmatched.

(** Modelled from the spec: the Reader struct is not among the sources.  It
    "consumes a character/rune source" and has the macro table and the
    "pluggable set of predefined symbol-to-value mappings". *)
Record Rd : Type := mkRd {
  input : list rune;
  macros : gmap Z macro;
  predef : gmap string value.Any
}.

Definition setInput (l : list rune) (rd : Rd) : Rd :=
  mkRd l (macros rd) (predef rd).

(** Modelled from the spec: [Reader.NextRune], "next_rune()"; the end of the
    input is [io.EOF]. *)
Definition NextRune : StateErr Rd rune := fun rd =>
  match input rd with
  | [] => Some (rd, Err io_EOF)
  | r :: rest => Some (setInput rest rd, Ok r)
  end.

(** Modelled from the spec: white space of the reader is [unicode.IsSpace]
    and, as the reader test [ListWithCommaSeparator] has it, the comma. *)
Definition isSpace (r : rune) : bool :=
  existsb (Z.eqb r)
    [9; 10; 11; 12; 13; 32; 133; 160; 5760; 8192; 8193; 8194; 8195; 8196;
     8197; 8198; 8199; 8200; 8201; 8202; 8232; 8233; 8239; 8287; 12288;
     44]%Z.

(** Modelled from the spec: [Reader.IsTerminal], "is_terminal(rune) (true for
    whitespace, EOF, or any registered macro-trigger character)"; the end of
    input is seen by the caller. *)
Definition IsTerminal (rd : Rd) (r : rune) : bool :=
  isSpace r || bool_decide (is_Some (macros rd !! r)).

(** Modelled from the spec: [Reader.Token], "token(initial_rune) (collects
    characters until a terminal character)", which stays in the input; the
    initial rune -1 stands for none. *)
Fixpoint Token_collect (rd : Rd) (l : list rune) (b : string)
    : list rune * string :=
  match l with
  | [] => ([], b)
  | r :: rest =>
      if IsTerminal rd r then (l, b)
      else Token_collect rd rest (b +:+ EncodeRune r)
  end.

(** Modelled from the spec: [Reader.Token] on the input of [rd]. *)
Definition Token (init : rune) : StateErr Rd string := fun rd =>
  let b := if (init =? -1)%Z then "" else EncodeRune init in
  let c := Token_collect rd (input rd) b in
  Some (setInput (fst c) rd, Ok (snd c)).

(** Modelled from the spec: [Reader.SkipSpaces], the white space before a
    form. *)
Fixpoint dropSpaces (l : list rune) : list rune :=
  match l with
  | r :: rest => if isSpace r then dropSpaces rest else l
  | [] => []
  end.

Definition SkipSpaces (rd : Rd) : Rd := setInput (dropSpaces (input rd)) rd.

(** Modelled from the spec: [Reader.Container].  "List: reads forms until the
    matching [)], appending each non-skip form to an ordered sequence; EOF
    before the closing delimiter is an error". *)
Fixpoint Container_loop (n : nat) (readOne : StateErr Rd value.Any)
    (forms : list value.Any) (end_ : rune) (formType : string)
    : StateErr Rd (list value.Any) :=
  match n with
  | O => fun _ => None
  | S n' => fun rd =>
      let rd1 := SkipSpaces rd in
      match input rd1 with
      | [] => Some (rd1, Err (Error ErrEOF "" formType 0))
      | r :: rest =>
          if (r =? end_)%Z then Some (setInput rest rd1, Ok forms)
          else
            match readOne rd1 with
            | None => None
            | Some (rd2, Err ErrSkip) =>
                Container_loop n' readOne forms end_ formType rd2
            | Some (rd2, Err e) => Some (rd2, Err e)
            | Some (rd2, Ok v) =>
                Container_loop n' readOne (forms ++ [v])%list end_ formType rd2
            end
      end
  end.

(** *** Integer literals *)

Definition digitVal (a : ascii) : option Z :=
  let n := Z.of_nat (nat_of_ascii a) in
  if (48 <=? n)%Z && (n <=? 57)%Z then Some (n - 48)%Z
  else if (97 <=? n)%Z && (n <=? 122)%Z then Some (n - 87)%Z
  else if (65 <=? n)%Z && (n <=? 90)%Z then Some (n - 55)%Z
  else None.

Fixpoint parseDigits (base : Z) (ds : list ascii) (acc : Z) : option Z :=
  match ds with
  | [] => Some acc
  | d :: rest =>
      match digitVal d with
      | Some v =>
          if (v <? base)%Z then parseDigits base rest (acc * base + v)%Z
          else None
      | None => None
      end
  end.

Definition splitSign (s : string) : bool * string :=
  match s with
  | String "+" rest => (false, rest)
  | String "-" rest => (true, rest)
  | _ => (false, s)
  end.

(** The base that a prefix selects when [base] is 0, and the digits after
    the prefix. *)
Definition splitBase (s : string) : Z * string :=
  match s with
  | String "0" (String c rest) =>
      if existsb (Ascii.eqb c) ["x"; "X"]%char then (16, rest)
      else if existsb (Ascii.eqb c) ["b"; "B"]%char then (2, rest)
      else if existsb (Ascii.eqb c) ["o"; "O"]%char then (8, rest)
      else (8, String c rest)
  | _ => (10, s)
  end.

Definition inInt64 (v : Z) : bool :=
  (- 2 ^ 63 <=? v)%Z && (v <? 2 ^ 63)%Z.

(** [strconv.ParseInt(s, 0, 64)] without digit separators. *)
Definition ParseInt (s : string) (base bitSize : Z) : Result Z :=
  let '(neg, body) := splitSign s in
  let '(b, digits) := if (base =? 0)%Z then splitBase body else (base, body) in
  match digits with
  | EmptyString => Err (errors_New "strconv.ParseInt: invalid syntax")
  | _ =>
      match parseDigits b (list_ascii_of_string digits) 0 with
      | Some v =>
          let v := if neg then (- v)%Z else v in
          if inInt64 v then Ok v
          else Err (errors_New "strconv.ParseInt: value out of range")
      | None => Err (errors_New "strconv.ParseInt: invalid syntax")
      end
  end.

(** The text before the first [r] and the text after it. *)
Fixpoint splitAtR (s : string) : option (string * string) :=
  match s with
  | EmptyString => None
  | String c rest =>
      if Ascii.eqb c "r" then Some (EmptyString, rest)
      else match splitAtR rest with
           | Some (a, b) => Some (String c a, b)
           | None => None
           end
  end.

(** Modelled from the spec: [parseRadix] is not among the sources.  "A radix
    token <base>r<digits> (optional leading -, base 2-36) parses digits in
    that base, failing if any digit is out of range for the base." *)
Definition parseRadix (numStr : string) : Result value.Any :=
  let bad := Err (Error ErrNumberFormat "" numStr 0) in
  let '(neg, body) := match numStr with
                      | String "-" rest => (true, rest)
                      | _ => (false, numStr)
                      end in
  match splitAtR body with
  | Some (String c baseStr, String d digits) =>
      match parseDigits 10 (c :: list_ascii_of_string baseStr) 0 with
      | Some base =>
          if (2 <=? base)%Z && (base <=? 36)%Z then
            match parseDigits base (d :: list_ascii_of_string digits) 0 with
            | Some v =>
                let v := if neg then (- v)%Z else v in
                if inInt64 v then Ok (value.Int64 v) else bad
            | None => bad
            end
          else bad
      | None => bad
      end
  | _ => bad
  end.

(** Floating-point values are outside this model: the reader of the examples
    reports every literal with a decimal point or an exponent as
    malformed. *)
Definition noFloat (s : string) (bitSize : Z) : Result Z :=
  Err (errors_New "strconv.ParseFloat").

Definition noScientific (s : string) : Result value.Any :=
  Err (Error ErrNumberFormat "" s 0).

(** *** One form *)

Definition isDigit (r : rune) : bool := (48 <=? r)%Z && (r <=? 57)%Z.

Definition startsNumber (r : rune) (rest : list rune) : bool :=
  isDigit r
  || ((r =? 43)%Z || (r =? 45)%Z)
     && match rest with r2 :: _ => isDigit r2 | [] => false end.

(** Modelled from the spec: the call of the macro registered for the leading
    rune; [n] bounds the forms of a list. *)
Definition runMacro (n : nat) (one readOne : StateErr Rd value.Any)
    (m : macro) : Macro Rd :=
  match m with
  | mComment => fun _ rd =>
      readComment_loop Rd NextRune (S (length (input rd))) rd
  | mKeyword => readKeyword Rd Token
  | mList => readList Rd (Container_loop n readOne [])
  | mQuote expandFunc => quoteFormReader Rd one expandFunc
  | mUnmatched => UnmatchedDelimiter Rd
  end.

(** Modelled from the spec: one attempt at a form.  "Read one leading rune;
    if it maps to a registered macro, invoke it with that rune as seed"; a
    digit, or a sign before a digit, starts a number; a symbol named in
    [predef] reads as its value ("Reader directly returns the value in the
    map instead of returning the symbol itself"). *)
Definition readOne_body (n : nat) (one readOne : StateErr Rd value.Any)
    : StateErr Rd value.Any := fun rd =>
  let rd1 := SkipSpaces rd in
  match input rd1 with
  | [] => Some (rd1, Err io_EOF)
  | r :: rest =>
      let rd2 := setInput rest rd1 in
      if startsNumber r rest then
        readNumber Rd Token noScientific parseRadix noFloat ParseInt r rd2
      else
        match macros rd !! r with
        | Some m => runMacro n one readOne m r rd2
        | None =>
            (sym <- readSymbol Rd Token r ;;
             match sym with
             | value.Symbol name => ret (default sym (predef rd !! name))
             | _ => ret sym
             end) rd2
        end
  end.

(** Modelled from the spec: [Reader.One] is not among the sources.  "A macro
    returning the sentinel skip signal (used by comments) causes the Reader
    to transparently retry and read the next form instead, rather than
    returning an empty result." *)
Definition One_body (readOne again : StateErr Rd value.Any)
    : StateErr Rd value.Any := fun rd =>
  match readOne rd with
  | Some (rd', Err ErrSkip) => again rd'
  | r => r
  end.

(** Modelled from the spec: [Reader.One], "next form, skipping comments and
    other no-op forms"; one unit of fuel is spent per nested call. *)
Fixpoint One (fuel : nat) {struct fuel} : StateErr Rd value.Any :=
  match fuel with
  | O => fun _ => None
  | S n => One_body (readOne n) (One n)
  end

with readOne (fuel : nat) {struct fuel} : StateErr Rd value.Any :=
  match fuel with
  | O => fun _ => None
  | S n => readOne_body n (One n) (readOne n)
  end.

(** The runes of an ASCII text. *)
Definition runes (s : string) : list rune :=
  map (fun a => Z.of_nat (nat_of_ascii a)) (list_ascii_of_string s).

(** The macro table and the predefined symbols used in the examples. *)
Definition exampleReader (src : string) : Rd :=
  mkRd (runes src)
    (<[59 := mComment]>
      (<[58 := mKeyword]>
        (<[40 := mList]>
          (<[41 := mUnmatched]>
            (<[39 := mQuote "quote"]>
              (<[126 := mQuote "unquote"]> ∅))))))%Z
    (<["nil" := value.Nil]>
      (<["true" := value.Bool true]>
        (<["false" := value.Bool false]> ∅))).

(** *** The string and character macros *)

(** [[]rune(s)]; [n] bounds the number of runes, which the length of [s]
    does. *)
Fixpoint toRunes_loop (n : nat) (s : string) : list rune :=
  match n with
  | O => []
  | S n' =>
      match DecodeRune s with
      | None => []
      | Some (r, rest) => r :: toRunes_loop n' rest
      end
  end.

Definition toRunes (s : string) : list rune :=
  toRunes_loop (String.length s) s.

Section StringAndCharacter.

Variable Reader : Type.

(** [rd.NextRune()] and [rd.Token(init)]. *)
Variable NextRune : StateErr Reader rune.
Variable Token : rune -> StateErr Reader string.

(** [getEscape], the table [charLiterals] and [readUnicodeChar] of this
    package are not among the sources: the macros are written against
    them. *)
Variable getEscape : rune -> Result rune.
Variable charLiterals : gmap string rune.
Variable readUnicodeChar : string -> Z -> Result value.Any.

(** The two [rd.NextRune()] calls of [readString] with their error test:
    [io.EOF] becomes the end-of-input error of the string, any other error is
    returned as it is. *)
Definition readString_next : StateErr Reader rune := fun rd =>
  match NextRune rd with
  | Some (rd', Err io_EOF) => Some (rd', Err (Error ErrEOF "" "string" 0))
  | r => r
  end.

(** The [for] loop of [readString] with the [strings.Builder] as [b]; [n]
    bounds the number of iterations. *)
Fixpoint readString_loop (n : nat) (b : string) : StateErr Reader value.Any :=
  match n with
  | O => fun _ => None
  | S n' =>
      r <- readString_next ;;
      if (r =? 92)%Z then
        r2 <- readString_next ;;
        escaped <- lift (getEscape r2) ;;
        readString_loop n' (b +:+ EncodeRune escaped)
      else if (r =? 34)%Z then
        ret (value.String b)
      else
        readString_loop n' (b +:+ EncodeRune r)
  end.

(** [token[0]] of an empty token is an index out of range, a panic. *)
Definition readCharacter : rune -> StateErr Reader value.Any := fun _ rd =>
  match NextRune rd with
  | None => None
  | Some (rd1, Err _) => Some (rd1, Err (Error ErrEOF "" "character" 0))
  | Some (rd1, Ok r) =>
      (token <- Token r ;;
       match toRunes token with
       | [c] => ret (value.Char c)
       | _ =>
           match charLiterals !! token with
           | Some v => ret (value.Char v)
           | None =>
               match token with
               | EmptyString => fun _ => None
               | String c rest =>
                   if Ascii.eqb c "u" then lift (readUnicodeChar rest 16)
                   else raise (errors_New
                                 ("unsupported character: '\" +:+ token +:+ "'"))
               end
           end
       end) rd1
  end.

End StringAndCharacter.

(** [readString] on the list reader: no string has more runes than the
    input. *)
Definition readString (getEscape : rune -> Result rune) (init : rune)
    : StateErr Rd value.Any := fun rd =>
  readString_loop Rd NextRune getEscape (S (length (input rd))) "" rd.

(** [readComment] on the list reader. *)
Definition readComment (init : rune) : StateErr Rd value.Any := fun rd =>
  readComment_loop Rd NextRune (S (length (input rd))) rd.

(** The text that [strings.Builder.WriteRune] builds from the runes of
    [l]. *)
Definition encodeAll (l : list rune) : string :=
  fold_right (fun r s => EncodeRune r +:+ s) EmptyString l.

(** The code points that UTF-8 encodes: no surrogate and none above
    U+10FFFF. *)
Definition validRune (r : rune) : Prop :=
  (0 <= r < 55296)%Z \/ (57344 <= r <= 1114111)%Z.

(** [rest] is where [Token] stops: at the end of the input or before a
    terminal rune. *)
Definition atTokenEnd (rd : Rd) (rest : list rune) : Prop :=
  match rest with
  | [] => True
  | t :: _ => IsTerminal rd t = true
  end.

(** [WithPredefinedSymbols]: a nil map, [None] here, stands for the three
    default symbols; the table of the reader is replaced. *)
Definition WithPredefinedSymbols (ss : option (gmap string value.Any))
    : Rd -> Rd := fun r =>
  let ss := match ss with
            | None =>
                <["nil" := value.Nil]>
                  (<["true" := value.Bool true]>
                     (<["false" := value.Bool false]> ∅))
            | Some ss => ss
            end in
  mkRd (input r) (macros r) ss.

End reader.

(** ** Configurations used in the examples *)

(** An Expander that rewrites nothing. *)
Definition identityExpander : value.Any -> M value.Any := ret.

(** Host functions: ["seven"] returns 7 and never looks at its arguments;
    ["loop"] evaluates the form [(loop)], an invocation of itself with no
    base case; every other function returns the nil interface value. *)
Definition exampleInvoke (fn : value.FnId) (eval : value.Any -> M value.Any)
    (args : list value.Any) : M value.Any :=
  if String.eqb fn "seven" then ret (value.Int64 7)
  else if String.eqb fn "loop" then eval (value.List [value.Symbol "loop"])
  else ret value.nilAny.

Definition exampleSprintf (e : Expr) : string := "expr".

Definition exampleGlobals : gmap string value.Any :=
  <["seven" := value.Fn "seven"]> (<["loop" := value.Fn "loop"]> ∅).

(** A fresh environment with the default depth bound of [withDefaults]. *)
Definition exampleEnv : Env := mkEnv exampleGlobals [] 10000 [].

(** An environment whose call stack has reached its bound of one frame. *)
Definition fullEnv : Env :=
  mkEnv exampleGlobals [mkFrame "outer" [] ∅] 1 [].

(** The form [(loop)] and the node the analyzer builds for it. *)
Definition loopForm : value.Any := value.List [value.Symbol "loop"].

Definition loopExpr : Expr :=
  InvokeExpr "expr" (ConstExpr (value.Fn "loop")) [ConstExpr (value.Fn "loop")].

(** [loop] names the host function ["loop"] in the global store, and the
    current frame does not shadow it. *)
Definition loopBound (env : Env) : Prop :=
  globals env !! "loop" = Some (value.Fn "loop") /\
  resolve "loop" env = value.Fn "loop".

(** The pipeline with the table of [WithAnalyzer(nil)]. *)
Definition exampleEval : nat -> value.Any -> M value.Any :=
  Env_Eval identityExpander exampleInvoke exampleSprintf
       (defaultAnalyzer).

Definition exampleExprEval : nat -> Expr -> M value.Any :=
  Expr_Eval identityExpander exampleInvoke exampleSprintf
            (defaultAnalyzer).

Definition exampleAnalyze : nat -> value.Any -> M Expr :=
  Analyze identityExpander exampleInvoke exampleSprintf
          (defaultAnalyzer).

(** The forms of a sequence run one after the other on the state, all without
    error: [RunAll f xs st st' ys] when [f] maps [xs] to [ys], taking the state
    from [st] to [st']. *)
Inductive RunAll {St A B : Type} (f : A -> StateErr St B)
    : list A -> St -> St -> list B -> Prop :=
| RunAll_nil st : RunAll f [] st st []
| RunAll_cons x xs st st1 st' y ys :
    f x st = Some (st1, Ok y) ->
    RunAll f xs st1 st' ys ->
    RunAll f (x :: xs) st st' (y :: ys).

(** The analyses that the loop of [analyzeSeq] performs on [items], all
    without error: before each element the call target is analyzed if the
    captured target is still the nil [Expr], then the element is analyzed.
    [t] is the captured target before the loop and [t'] after it, [args] the
    results for the elements. *)
Inductive AnalyzeItems (analyze : value.Any -> M Expr) (first : value.Any)
    : list value.Any -> Expr -> Env -> Env -> Expr -> list Expr -> Prop :=
| AnalyzeItems_nil t env : AnalyzeItems analyze first [] t env env t []
| AnalyzeItems_cons item items t t1 t' env env1 env2 env' arg args :
    analyzeSeq_target analyze first t env = Some (env1, Ok t1) ->
    analyze item env1 = Some (env2, Ok arg) ->
    AnalyzeItems analyze first items t1 env2 env' t' args ->
    AnalyzeItems analyze first (item :: items) t env env' t' (arg :: args).

(** A special form [w] whose parser returns the nil [Expr] and no error, and
    counts its calls in the global [calls]. *)
Definition parseNil : ParseSpecial := fun _ _ env =>
  let calls := match globals env !! "calls" with
               | Some (value.Int64 k) => k
               | _ => 0%Z
               end in
  Some (setGlobal "calls" (value.Int64 (calls + 1)) env, Ok nilExpr).

Definition nilAnalyzer : BasicAnalyzer := mkAnalyzer (<["w" := parseNil]> ∅).

(** A string made of white-space runes only. *)
Definition joined (es : list string) : string :=
  fold_right String.append EmptyString es.

Definition spacesOnly (s : string) : Prop :=
  exists es, Forall (fun e => In e spaceEncodings) es /\ s = joined es.

(** [s] is not empty and no white-space rune, whole or cut short, is at its
    start (at its end): nothing can be trimmed there whatever text follows
    (precedes) [s]. *)
Definition noLeadingSpace (s : string) : Prop :=
  forall t, stripOneOf spaceEncodings (s +:+ t) = None.

Definition noTrailingSpace (s : string) : Prop :=
  forall t, stripOneOf (map strRev spaceEncodings) (strRev s +:+ t) = None.

(** ** Options of the environment *)

(** [WithGlobals(globals, factory)]: every pair of [globals] is stored into the
    global store of the environment, one [Store] per key.  A store that is
    still nil is first made by the factory; the store of [Env] is never nil,
    an empty one standing for it. *)
Definition WithGlobals (bindings : gmap string value.Any) : Env -> Env :=
  fun env =>
    mkEnv (map_fold (fun k v store => <[k := v]> store) (globals env) bindings)
          (stack env) (maxDepth env) (spawned env).

(** [int(depth)] for an unsigned [depth] below 2^64, where [int] has 64
    bits. *)
Definition intOfUint (depth : Z) : Z :=
  if (depth <? 2 ^ 63)%Z then depth else (depth - 2 ^ 64)%Z.

(** [WithMaxDepth(depth)]: [None] is the panic "maxdepth must be nonzero". *)
Definition WithMaxDepth (depth : Z) : option (Env -> Env) :=
  if (depth =? 0)%Z then None
  else Some (fun env =>
               mkEnv (globals env) (stack env) (intOfUint depth) (spawned env)).

(** ** Predicates of the statements below *)

(** A form that [Analyze] takes for a constant: neither a symbol nor a
    non-empty list. *)
Definition selfEvaluating (form : value.Any) : Prop :=
  match form with
  | value.Symbol _ => False
  | value.List (_ :: _) => False
  | _ => True
  end.

(** The current frame, when there is one, has no local binding of [name]. *)
Definition notShadowed (name : string) (env : Env) : Prop :=
  match stack env with
  | frame :: _ => ConcurrentMap frame !! name = None
  | [] => True
  end.

(** The error that [quoteFormReader] makes of the skip signal is an [Error]
    whose cause comes from [errors.New]; [otherCause e] holds of every other
    error of the reader. *)
Definition otherCause (e : error) : Prop :=
  match e with
  | Error (errors_New _) _ _ _ => False
  | _ => True
  end.

(** * Properties *)

(** ** Strings *)

Lemma list_ascii_app (a b : string) :
  list_ascii_of_string (a +:+ b)
  = (list_ascii_of_string a ++ list_ascii_of_string b)%list.
Proof.
  induction a as [|c a IH]; simpl; [reflexivity | now rewrite IH].
Qed.

Lemma string_of_list_app (a b : list ascii) :
  string_of_list_ascii (a ++ b)%list
  = string_of_list_ascii a +:+ string_of_list_ascii b.
Proof.
  induction a as [|c a IH]; simpl; [reflexivity | now rewrite IH].
Qed.

Lemma strRev_app (a b : string) : strRev (a +:+ b) = strRev b +:+ strRev a.
Proof.
  unfold strRev. now rewrite list_ascii_app, rev_app_distr, string_of_list_app.
Qed.

Lemma strRev_involutive (s : string) : strRev (strRev s) = s.
Proof.
  unfold strRev.
  now rewrite list_ascii_of_string_of_list_ascii, rev_involutive,
    string_of_list_ascii_of_string.
Qed.

Lemma length_list_ascii (s : string) :
  length (list_ascii_of_string s) = String.length s.
Proof. induction s as [|c s IH]; simpl; [reflexivity | now rewrite IH]. Qed.

Lemma strRev_length (s : string) : String.length (strRev s) = String.length s.
Proof.
  unfold strRev.
  rewrite <- (length_list_ascii (string_of_list_ascii _)).
  now rewrite list_ascii_of_string_of_list_ascii, length_rev, length_list_ascii.
Qed.

Lemma app_length_string (a b : string) :
  String.length (a +:+ b) = (String.length a + String.length b)%nat.
Proof. induction a as [|c a IH]; simpl; [reflexivity | now rewrite IH]. Qed.

Lemma app_assoc_string (a b c : string) : (a +:+ b) +:+ c = a +:+ (b +:+ c).
Proof.
  induction a as [|x a IH]; [reflexivity |].
  change (String x ((a +:+ b) +:+ c) = String x (a +:+ (b +:+ c))).
  now rewrite IH.
Qed.

Lemma app_empty_r (a : string) : a +:+ "" = a.
Proof.
  induction a as [|x a IH]; [reflexivity |].
  change (String x (a +:+ "") = String x a).
  now rewrite IH.
Qed.

Lemma strRev_joined (es : list string) :
  strRev (joined es) = joined (map strRev (rev es)).
Proof.
  induction es as [|e es IH]; simpl; [reflexivity |].
  rewrite strRev_app, IH, map_app. simpl.
  generalize (map strRev (rev es)) as l. intros l.
  induction l as [|x l IHl]; simpl.
  - now rewrite app_empty_r.
  - now rewrite app_assoc_string, IHl.
Qed.

(** ** strings.TrimSpace on a padded name *)

Section Trim.

Variable encs : list string.
Hypothesis encs_strip :
  forall e s, In e encs -> stripOneOf encs (e +:+ s) = Some s.
Hypothesis encs_nonempty : forall e, In e encs -> e <> "".

Lemma trimLeftN_joined (es : list string) :
  Forall (fun e => In e encs) es ->
  forall n core,
    stripOneOf encs core = None ->
    (String.length (joined es) <= n)%nat ->
    trimLeftN encs n (joined es +:+ core) = core.
Proof.
  induction 1 as [|e es He Hes IH]; intros n core Hcore Hn.
  - change (trimLeftN encs n core = core).
    destruct n as [|n]; simpl; [reflexivity | now rewrite Hcore].
  - change (joined (e :: es)) with (e +:+ joined es) in *.
    rewrite app_assoc_string.
    rewrite app_length_string in Hn.
    assert (String.length e <> 0%nat) as Hlen.
    { specialize (encs_nonempty e He). destruct e; simpl; congruence. }
    destruct n as [|n]; [lia |].
    simpl. rewrite encs_strip by assumption.
    apply IH; [assumption | lia].
Qed.

End Trim.

Lemma spaceEncodings_strip (e s : string) :
  In e spaceEncodings -> stripOneOf spaceEncodings (e +:+ s) = Some s.
Proof.
  intros He. unfold spaceEncodings in He. simpl in He.
  repeat (destruct He as [<- | He]; [reflexivity |]).
  contradiction.
Qed.

Lemma spaceEncodings_nonempty (e : string) : In e spaceEncodings -> e <> "".
Proof.
  intros He. unfold spaceEncodings in He. simpl in He.
  repeat (destruct He as [<- | He]; [discriminate |]).
  contradiction.
Qed.

Lemma revEncodings_strip (e s : string) :
  In e (map strRev spaceEncodings) ->
  stripOneOf (map strRev spaceEncodings) (e +:+ s) = Some s.
Proof.
  intros He. unfold spaceEncodings in He. simpl in He.
  repeat (destruct He as [<- | He]; [reflexivity |]).
  contradiction.
Qed.

Lemma revEncodings_nonempty (e : string) :
  In e (map strRev spaceEncodings) -> e <> "".
Proof.
  intros He. unfold spaceEncodings in He. simpl in He.
  repeat (destruct He as [<- | He]; [discriminate |]).
  contradiction.
Qed.

Lemma TrimLeftSpace_padded (l rest : string) :
  spacesOnly l ->
  stripOneOf spaceEncodings rest = None ->
  TrimLeftSpace (l +:+ rest) = rest.
Proof.
  intros (es & Hes & ->) Hrest. unfold TrimLeftSpace.
  apply trimLeftN_joined;
    auto using spaceEncodings_strip, spaceEncodings_nonempty.
  rewrite app_length_string. lia.
Qed.

Lemma TrimRightSpace_padded (core r : string) :
  spacesOnly r ->
  noTrailingSpace core ->
  TrimRightSpace (core +:+ r) = core.
Proof.
  intros (es & Hes & ->) Hcore. unfold TrimRightSpace.
  rewrite strRev_app, strRev_joined, trimLeftN_joined.
  - apply strRev_involutive.
  - apply revEncodings_strip.
  - apply revEncodings_nonempty.
  - apply List.Forall_forall. intros e He.
    apply in_map_iff in He as (e0 & <- & He0).
    apply in_map. apply in_rev in He0.
    rewrite List.Forall_forall in Hes. auto.
  - specialize (Hcore ""). now rewrite app_empty_r in Hcore.
  - rewrite <- strRev_joined, strRev_length, app_length_string. lia.
Qed.

Lemma TrimSpace_padded (l core r : string) :
  spacesOnly l -> spacesOnly r ->
  noLeadingSpace core -> noTrailingSpace core ->
  TrimSpace (l +:+ core +:+ r) = core.
Proof.
  intros Hl Hr Hlead Htrail. unfold TrimSpace.
  rewrite TrimLeftSpace_padded by auto.
  now apply TrimRightSpace_padded.
Qed.

Lemma noLeadingSpace_nonempty (core : string) : noLeadingSpace core -> core <> "".
Proof.
  intros H ->. specialize (H " "). discriminate.
Qed.

(** ** Def nodes *)

(** C3.  A Def node whose name is blank once the surrounding white space is
    trimmed fails with the invalid-binding-name error and leaves the
    environment, and so the global store, as it was.  For every other name the
    evaluation succeeds whatever the call stack holds: the global store gains
    the pre-computed value under the bound name, the call stack is untouched,
    and the result is the bound name as a Symbol. *)
Theorem DefExpr_Eval_blank_or_bind (Name : string) (Value : value.Any) (env : Env) :
  (TrimSpace Name = "" ->
     DefExpr_Eval Name Value env
     = Some (env, Err (fmt_Errorf_w ErrInvalidBindName ""))) /\
  (TrimSpace Name <> "" ->
     exists env',
       DefExpr_Eval Name Value env
       = Some (env', Ok (value.Symbol (TrimSpace Name))) /\
       globals env' = <[TrimSpace Name := Value]> (globals env) /\
       globals env' !! TrimSpace Name = Some Value /\
       stack env' = stack env).
Proof.
  unfold DefExpr_Eval. split.
  - intros ->. reflexivity.
  - intros Hne.
    destruct (String.eqb (TrimSpace Name) "") eqn:E.
    + apply String.eqb_eq in E. contradiction.
    + eexists. split; [reflexivity |]. simpl.
      repeat split. apply lookup_insert_eq.
Qed.

Lemma DefExpr_Eval_blank_or_bind_witness :
  DefExpr_Eval "   " (value.Int64 5) fullEnv
  = Some (fullEnv, Err (fmt_Errorf_w ErrInvalidBindName "")) /\
  exists env',
    DefExpr_Eval "x" (value.Int64 5) fullEnv
    = Some (env', Ok (value.Symbol "x")) /\
    globals env' = <["x" := value.Int64 5]> (globals fullEnv) /\
    globals env' !! "x" = Some (value.Int64 5) /\
    stack env' = stack fullEnv.
Proof.
  split.
  - apply (proj1 (DefExpr_Eval_blank_or_bind "   " (value.Int64 5) fullEnv)).
    reflexivity.
  - apply (proj2 (DefExpr_Eval_blank_or_bind "x" (value.Int64 5) fullEnv)).
    discriminate.
Defined.

(** C10.  A Def node whose name is a non-blank core with white space before
    or after it binds and returns the core: the global store gains the value
    under the trimmed key, the returned Symbol carries the trimmed text, and
    when the name was padded nothing is stored under the name as written. *)
Theorem DefExpr_Eval_binds_trimmed_name (l core r : string) (Value : value.Any)
    (env : Env) :
  spacesOnly l -> spacesOnly r ->
  noLeadingSpace core -> noTrailingSpace core ->
  exists env',
    DefExpr_Eval (l +:+ core +:+ r) Value env
    = Some (env', Ok (value.Symbol core)) /\
    globals env' !! core = Some Value /\
    (l +:+ core +:+ r <> core ->
     globals env' !! (l +:+ core +:+ r) = globals env !! (l +:+ core +:+ r)).
Proof.
  intros Hl Hr Hlead Htrail.
  pose proof (TrimSpace_padded l core r Hl Hr Hlead Htrail) as Htrim.
  pose proof (noLeadingSpace_nonempty core Hlead) as Hne.
  unfold DefExpr_Eval. rewrite Htrim.
  destruct (String.eqb core "") eqn:E.
  - apply String.eqb_eq in E. contradiction.
  - eexists. split; [reflexivity |]. simpl. split.
    + apply lookup_insert_eq.
    + intros Hpad. apply lookup_insert_ne. congruence.
Qed.

Lemma spacesOnly_space : spacesOnly " ".
Proof.
  exists [" "]. split; [| reflexivity].
  constructor; [| constructor]. unfold spaceEncodings. simpl. tauto.
Qed.

Lemma DefExpr_Eval_binds_trimmed_name_witness :
  exists env',
    DefExpr_Eval " x " (value.Int64 1) exampleEnv
    = Some (env', Ok (value.Symbol "x")) /\
    globals env' !! "x" = Some (value.Int64 1) /\
    (" x " <> "x" -> globals env' !! " x " = globals exampleEnv !! " x ").
Proof.
  apply (DefExpr_Eval_binds_trimmed_name " " "x" " " (value.Int64 1) exampleEnv).
  - exact spacesOnly_space.
  - exact spacesOnly_space.
  - intros t. reflexivity.
  - intros t. reflexivity.
Defined.

(** ** If, Do and Go nodes *)

Lemma last_cons_default {A : Type} (x : A) (l : list A) (d d' : A) :
  List.last (x :: l) d = List.last (x :: l) d'.
Proof.
  revert x. induction l as [|y l IH]; intros x; [reflexivity |].
  change (List.last (y :: l) d = List.last (y :: l) d'). apply IH.
Qed.

Section NodeLemmas.

Variable eval : value.Any -> M value.Any.

Lemma DoExpr_loop_all (Forms : list value.Any) (env env' : Env)
    (vs : list value.Any) :
  RunAll eval Forms env env' vs ->
  forall res, DoExpr_loop eval Forms res env = Some (env', Ok (List.last vs res)).
Proof.
  induction 1 as [st | x xs st st1 st' y ys Hx Hxs IH]; intros res.
  - reflexivity.
  - simpl DoExpr_loop. unfold bind. rewrite Hx. rewrite IH.
    destruct ys as [|a ys]; [reflexivity |].
    change (List.last (y :: a :: ys) res) with (List.last (a :: ys) res).
    now rewrite (last_cons_default a ys y res).
Qed.

Lemma DoExpr_loop_abort (before : list value.Any) (env env1 : Env)
    (vs : list value.Any) :
  RunAll eval before env env1 vs ->
  forall form after env2 e res,
    eval form env1 = Some (env2, Err e) ->
    DoExpr_loop eval (before ++ form :: after) res env = Some (env2, Err e).
Proof.
  induction 1 as [st | x xs st st1 st' y ys Hx Hxs IH];
    intros form after env2 e res Hform.
  - simpl. unfold bind. now rewrite Hform.
  - simpl. unfold bind. rewrite Hx. now apply IH.
Qed.

Lemma RunAll_length {A B : Type} (f : A -> M B) (xs : list A) (env env' : Env)
    (ys : list B) :
  RunAll f xs env env' ys -> length ys = length xs.
Proof. induction 1; simpl; congruence. Qed.

End NodeLemmas.

(** C6.  A Do node evaluates its forms in order through the pipeline, each on
    the environment the previous one left.  With no form the result is Nil;
    when every form evaluates, the result is that of the last form (the nil
    interface value, Go's absent value, is handed back as Nil); when a form
    fails, the evaluation stops there with that error, in the environment
    that form left, whatever forms come after it. *)
Theorem DoExpr_Eval_in_order Expand Invoke Sprintf_s ba (n : nat) :
  let eval := Env_Eval Expand Invoke Sprintf_s ba n in
  let evalExpr := Expr_Eval Expand Invoke Sprintf_s ba (S n) in
  (forall env, evalExpr (DoExpr []) env = Some (env, Ok value.Nil)) /\
  (forall Forms env env' vs,
      RunAll eval Forms env env' vs ->
      exists r,
        evalExpr (DoExpr Forms) env = Some (env', Ok r) /\
        (List.last vs value.nilAny <> value.nilAny -> r = List.last vs value.nilAny) /\
        (List.last vs value.nilAny = value.nilAny -> r = value.Nil)) /\
  (forall before form after env env1 env2 vs e,
      RunAll eval before env env1 vs ->
      eval form env1 = Some (env2, Err e) ->
      evalExpr (DoExpr (before ++ form :: after)) env = Some (env2, Err e)).
Proof.
  intros eval evalExpr. repeat split.
  - intros Forms env env' vs Hall.
    unfold evalExpr. simpl. unfold DoExpr_Eval, bind.
    fold eval. rewrite (DoExpr_loop_all eval Forms env env' vs Hall).
    destruct (List.last vs value.nilAny) eqn:E;
      eexists; (split; [reflexivity |]); split; intros H;
      congruence.
  - intros before form after env env1 env2 vs e Hall Hform.
    unfold evalExpr. simpl. unfold DoExpr_Eval, bind. fold eval.
    now rewrite (DoExpr_loop_abort eval before env env1 vs Hall form after env2 e).
Qed.

Lemma DoExpr_Eval_in_order_witness :
  (exists r,
      exampleExprEval 4 (DoExpr [value.Int64 1; value.Int64 2]) exampleEnv
      = Some (exampleEnv, Ok r) /\
      (value.Int64 2 <> value.nilAny -> r = value.Int64 2) /\
      (value.Int64 2 = value.nilAny -> r = value.Nil)) /\
  exampleExprEval 4
    (DoExpr ([value.Int64 1] ++ value.Symbol "undefined" :: [value.Symbol "loop"]))
    exampleEnv
  = Some (exampleEnv, Err (Error ErrNotFound "undefined" "" 0)).
Proof.
  pose proof (DoExpr_Eval_in_order identityExpander exampleInvoke
                exampleSprintf defaultAnalyzer 3) as (_ & Hall & Habort).
  split.
  - apply (Hall [value.Int64 1; value.Int64 2] exampleEnv exampleEnv
             [value.Int64 1; value.Int64 2]).
    repeat (econstructor; [reflexivity |]). constructor.
  - apply (Habort [value.Int64 1] (value.Symbol "undefined")
             [value.Symbol "loop"] exampleEnv exampleEnv exampleEnv
             [value.Int64 1]).
    + repeat (econstructor; [reflexivity |]). constructor.
    + reflexivity.
Defined.

(** C5.  An If node evaluates its test through the pipeline and then, on the
    environment the test left, the then-form when the test value is truthy and
    the else-form otherwise.  A value is falsy exactly when it is Nil (in
    either representation) or the boolean false, so the node built for
    [(if nil 1 2)] evaluates to 2 and the one for [(if 0 1 2)] to 1, with any
    fuel from 3 on. *)
Theorem IfExpr_Eval_truthiness Expand Invoke Sprintf_s ba (n : nat) :
  let eval := Env_Eval Expand Invoke Sprintf_s ba n in
  let evalExpr := Expr_Eval Expand Invoke Sprintf_s ba (S n) in
  (forall Test Then Else env env1 test,
      eval Test env = Some (env1, Ok test) ->
      evalExpr (IfExpr Test Then Else) env
      = if value.IsTruthy test then eval Then env1 else eval Else env1) /\
  (forall v,
      value.IsTruthy v = false
      <-> v = value.Nil \/ v = value.nilAny \/ v = value.Bool false) /\
  (forall env,
      Expr_Eval identityExpander Invoke Sprintf_s ba (3 + n)
        (IfExpr value.Nil (value.Int64 1) (value.Int64 2)) env
      = Some (env, Ok (value.Int64 2))) /\
  (forall env,
      Expr_Eval identityExpander Invoke Sprintf_s ba (3 + n)
        (IfExpr (value.Int64 0) (value.Int64 1) (value.Int64 2)) env
      = Some (env, Ok (value.Int64 1))).
Proof.
  intros eval evalExpr. repeat split.
  - intros Test Then Else env env1 test Htest.
    unfold evalExpr. simpl. unfold IfExpr_Eval, bind. fold eval.
    rewrite Htest. now destruct (value.IsTruthy test).
  - destruct v as [| | [|] | | | | | | | |]; simpl; intros H;
      try discriminate; auto.
  - intros [H | [H | H]]; subst; reflexivity.
Qed.

Lemma IfExpr_Eval_truthiness_witness :
  exampleExprEval 4 (IfExpr (value.Bool false) (value.Int64 1) (value.Int64 2))
    exampleEnv
  = exampleEval 3 (value.Int64 2) exampleEnv.
Proof.
  pose proof (IfExpr_Eval_truthiness identityExpander exampleInvoke
                exampleSprintf defaultAnalyzer 3) as (Hif & _).
  apply (Hif (value.Bool false) (value.Int64 1) (value.Int64 2)
           exampleEnv exampleEnv (value.Bool false)).
  reflexivity.
Defined.

(** The table of [WithAnalyzer(nil)] has no parser for [if]: the form
    [(if nil 1 2)] is a general invocation there, and fails on the unbound
    symbol.  If nodes come from a table that the configuration extends. *)
Example if_form_with_default_table :
  exampleEval 5
    (value.List [value.Symbol "if"; value.Nil; value.Int64 1; value.Int64 2])
    exampleEnv
  = Some (exampleEnv, Err (Error ErrNotFound "if" "" 0)).
Proof. reflexivity. Qed.

(** A Do node whose last form is a [go] form: the goroutine is started, and
    the nil interface value that the Go node returned comes back as Nil. *)
Example do_go_is_Nil :
  exists env',
    exampleExprEval 5
      (DoExpr [value.Int64 1;
               value.List [value.Symbol "go"; value.Int64 2]]) exampleEnv
    = Some (env', Ok value.Nil) /\
    spawned env' = [mkGo [] 10000 (value.Int64 2)].
Proof. eexists. split; reflexivity. Qed.

(** C4.  A Go node returns at once, without error, the nil interface value,
    which is Nil: the caller's global store and call stack are as before, and
    the only trace is the goroutine recorded with an empty call stack of its
    own.  The form is not evaluated by the call, so the result is the same
    under every expander, analyzer and host function, whatever the
    evaluation of the form would produce with them.  When the goroutine runs
    later, its value and its error go nowhere: the caller's call stack and
    depth bound are untouched by it. *)
Theorem GoExpr_Eval_returns_nil Expand Invoke Sprintf_s ba (n : nat)
    (Value : value.Any) (env : Env) :
  exists env',
    Expr_Eval Expand Invoke Sprintf_s ba (S n) (GoExpr Value) env
    = Some (env', Ok value.nilAny) /\
    value.IsNil value.nilAny = true /\
    globals env' = globals env /\
    stack env' = stack env /\
    spawned env' = (spawned env ++ [mkGo [] (maxDepth env) Value])%list /\
    (forall Expand' Invoke' Sprintf_s' ba' n',
        Expr_Eval Expand' Invoke' Sprintf_s' ba' (S n') (GoExpr Value) env
        = Some (env', Ok value.nilAny)) /\
    (forall fuel g,
        let after := runGoroutine Expand Invoke Sprintf_s ba fuel g env' in
        stack after = stack env' /\ maxDepth after = maxDepth env').
Proof.
  eexists. split; [reflexivity |]. simpl. repeat split.
  - unfold runGoroutine.
    destruct (Env_Eval _ _ _ _ _ _ _) as [[child r] |]; reflexivity.
  - unfold runGoroutine.
    destruct (Env_Eval _ _ _ _ _ _ _) as [[child r] |]; reflexivity.
Qed.

(** The goroutine of [(go undefined)] fails with the not-found error; the
    caller has its Nil all the same, and the run of the goroutine changes
    nothing in the global store. *)
Example go_error_is_dropped :
  let form := value.List [value.Symbol "go"; value.Symbol "undefined"] in
  let g := mkGo [] 10000 (value.Symbol "undefined") in
  exists env',
    exampleEval 3 form exampleEnv = Some (env', Ok value.nilAny) /\
    spawned env' = [g] /\
    exampleEval 3 (goForm g) (mkEnv (globals env') [] 10000 [])
    = Some (mkEnv (globals env') [] 10000 [],
            Err (Error ErrNotFound "undefined" "" 0)) /\
    globals (runGoroutine identityExpander exampleInvoke exampleSprintf
               defaultAnalyzer 3 g env')
    = globals exampleEnv.
Proof. eexists. repeat split. Qed.

(** The goroutine of [(go (def y 1))] writes to the store it shares with the
    caller: once it has run, [y] resolves to 1 in the caller's environment. *)
Example go_def_is_visible :
  let def := value.List [value.Symbol "def"; value.Symbol "y"; value.Int64 1] in
  let g := mkGo [] 10000 def in
  exists env',
    exampleEval 3 (value.List [value.Symbol "go"; def]) exampleEnv
    = Some (env', Ok value.nilAny) /\
    resolve "y" env' = value.nilAny /\
    resolve "y" (runGoroutine identityExpander exampleInvoke exampleSprintf
                   defaultAnalyzer 5 g env')
    = value.Int64 1.
Proof. eexists. repeat split. Qed.

(** ** The go special form *)

Lemma parseGoExpr_first (eval : value.Any -> M value.Any) (v : value.Any)
    (rest : list value.Any) (env : Env) :
  v <> value.nilAny ->
  parseGoExpr eval (v :: rest) env = Some (env, Ok (GoExpr v)).
Proof.
  intros Hv. unfold parseGoExpr, bind, lift. simpl.
  destruct v; try reflexivity. contradiction.
Qed.

Lemma parseGoExpr_missing (eval : value.Any -> M value.Any) (env : Env) :
  parseGoExpr eval [] env
  = Some (env, Err (Error (errors_New "go expt requires exactly one argument")
                      "" "" 0)).
Proof. reflexivity. Qed.

(** The sibling parser counts its arguments. *)
Lemma parseQuoteExpr_two_arguments (eval : value.Any -> M value.Any)
    (a b : value.Any) (env : Env) :
  parseQuoteExpr eval [a; b] env
  = Some (env, Err (Error (errors_New "invalid def form")
                      "requires exactly 1 argument, got 2" "" 0)).
Proof. reflexivity. Qed.

(** C8.  The form [(go 1 2)] has two arguments and is not rejected: the
    parser, and the analyzer that dispatches to it, build the Go node of the
    first argument and drop the second. *)
Theorem parseGoExpr_two_arguments (eval : value.Any -> M value.Any) (env : Env) :
  parseGoExpr eval [value.Int64 1; value.Int64 2] env
  = Some (env, Ok (GoExpr (value.Int64 1))) /\
  exampleAnalyze 2
    (value.List [value.Symbol "go"; value.Int64 1; value.Int64 2]) env
  = Some (env, Ok (GoExpr (value.Int64 1))).
Proof. split; reflexivity. Qed.

(** ** General invocations *)

Section AnalyzeSeq.

Variable Sprintf_s : Expr -> string.
Variable analyze : value.Any -> M Expr.
Variable first : value.Any.

Lemma ForEach_cons {St : Type} (x : value.Any) (xs : list value.Any)
    (call : value.Any -> St -> M (bool * St)) (st : St) (env : Env) :
  ForEach (x :: xs) call st env
  = match call x st env with
    | None => None
    | Some (env1, Ok r) =>
        if fst r then Some (env1, Ok (snd r)) else ForEach xs call (snd r) env1
    | Some (env1, Err e) => Some (env1, Err e)
    end.
Proof.
  simpl. unfold bind.
  destruct (call x st env) as [[env1 [r | e]] |]; try reflexivity.
  now destruct (fst r).
Qed.

Lemma analyzeSeq_target_kept (target : Expr) (env : Env) :
  target <> nilExpr ->
  analyzeSeq_target analyze first target env = Some (env, Ok target).
Proof. intros H. destruct target; try reflexivity. contradiction. Qed.

Lemma analyzeSeq_item_step (x : value.Any) (env env1 env2 : Env)
    (y target target1 : Expr) (acc : list Expr) :
  analyzeSeq_target analyze first target env = Some (env1, Ok target1) ->
  analyze x env1 = Some (env2, Ok y) ->
  analyzeSeq_item analyze first x (target, acc) env
  = Some (env2, Ok (false, (target1, (acc ++ [y])%list))).
Proof.
  intros Htarget Hx. unfold analyzeSeq_item, bind, ret. cbn [fst snd].
  rewrite Htarget. now rewrite Hx.
Qed.

Lemma ForEach_AnalyzeItems (xs : list value.Any) (env env' : Env)
    (target target' : Expr) (ys : list Expr) :
  AnalyzeItems analyze first xs target env env' target' ys ->
  forall acc,
    ForEach xs (analyzeSeq_item analyze first) (target, acc) env
    = Some (env', Ok (target', (acc ++ ys)%list)).
Proof.
  induction 1 as [t st | x xs t t1 t' st st1 st2 st' y ys Ht Hx Hxs IH];
    intros acc.
  - simpl. unfold ret. now rewrite app_nil_r.
  - rewrite ForEach_cons.
    rewrite (analyzeSeq_item_step x st st1 st2 y t t1 acc Ht Hx).
    cbn [fst snd]. rewrite IH. now rewrite <- app_assoc.
Qed.

Lemma AnalyzeItems_length (xs : list value.Any) (env env' : Env)
    (target target' : Expr) (ys : list Expr) :
  AnalyzeItems analyze first xs target env env' target' ys ->
  length ys = length xs.
Proof. induction 1; simpl; congruence. Qed.

(** Once the target is not nil the loop analyzes the elements and nothing
    else. *)
Lemma AnalyzeItems_kept (xs : list value.Any) (env env' : Env) (ys : list Expr) :
  RunAll analyze xs env env' ys ->
  forall target,
    target <> nilExpr ->
    AnalyzeItems analyze first xs target env env' target ys.
Proof.
  induction 1 as [st | x xs st st1 st' y ys Hx Hxs IH]; intros target Hnil.
  - constructor.
  - apply (AnalyzeItems_cons analyze first x xs target target target
             st st st1 st' y ys).
    + now apply analyzeSeq_target_kept.
    + exact Hx.
    + now apply IH.
Qed.

Lemma AnalyzeItems_RunAll (xs : list value.Any) (env env' : Env)
    (target target' : Expr) (ys : list Expr) :
  AnalyzeItems analyze first xs target env env' target' ys ->
  target <> nilExpr ->
  target' = target /\ RunAll analyze xs env env' ys.
Proof.
  induction 1 as [t st | x xs t t1 t' st st1 st2 st' y ys Ht Hx Hxs IH];
    intros Hnil.
  - split; [reflexivity | constructor].
  - rewrite (analyzeSeq_target_kept t st Hnil) in Ht.
    inversion Ht; subst.
    destruct (IH Hnil) as [-> Hall].
    split; [reflexivity |]. econstructor; eassumption.
Qed.

(** The loop on a sequence that starts with the target itself: the target is
    analyzed, and when the result is not nil every element is analyzed
    once. *)
Lemma AnalyzeItems_first (rest : list value.Any) (env env1 env' : Env)
    (target : Expr) (args : list Expr) :
  analyze first env = Some (env1, Ok target) ->
  target <> nilExpr ->
  RunAll analyze (first :: rest) env1 env' args ->
  AnalyzeItems analyze first (first :: rest) nilExpr env env' target args.
Proof.
  intros Htarget Hnil Hall.
  inversion Hall as [| x xs st st1 st' y ys Hx Hxs]; subst.
  apply (AnalyzeItems_cons analyze first first rest nilExpr target target
           env env1 st1 env' y ys).
  - exact Htarget.
  - exact Hx.
  - now apply AnalyzeItems_kept.
Qed.

Lemma analyzeSeq_general (ba : BasicAnalyzer) (eval : value.Any -> M value.Any)
    (rest : list value.Any) (env : Env) :
  specialOf ba first = None ->
  analyzeSeq Sprintf_s ba analyze eval (first :: rest) env
  = match ForEach (first :: rest) (analyzeSeq_item analyze first)
            (nilExpr, []) env with
    | None => None
    | Some (env', Ok st) =>
        Some (env', Ok (InvokeExpr (Sprintf_s (fst st)) (fst st) (snd st)))
    | Some (env', Err e) => Some (env', Err e)
    end.
Proof.
  intros Hspecial. unfold analyzeSeq.
  unfold bind at 1. unfold lift, value.First. cbv beta iota.
  rewrite Hspecial. unfold bind, ret.
  destruct (ForEach _ _ _ _) as [[env' [st | e]] |]; reflexivity.
Qed.

Lemma BasicAnalyzer_Analyze_list (ba : BasicAnalyzer)
    (eval : value.Any -> M value.Any) (x : value.Any) (xs : list value.Any)
    (env : Env) :
  BasicAnalyzer_Analyze Sprintf_s ba analyze eval (value.List (x :: xs)) env
  = analyzeSeq Sprintf_s ba analyze eval (x :: xs) env.
Proof.
  unfold BasicAnalyzer_Analyze. unfold bind at 1. unfold lift, value.Count.
  cbv beta iota.
  destruct (Z.eqb_spec (Z.of_nat (length (x :: xs))) 0) as [H | H].
  - simpl length in H. lia.
  - reflexivity.
Qed.

End AnalyzeSeq.

Lemma Analyze_list_items Expand Invoke Sprintf_s ba (n : nat)
    (first : value.Any) (rest : list value.Any) (env env' : Env)
    (target : Expr) (args : list Expr) :
  specialOf ba first = None ->
  AnalyzeItems (Analyze Expand Invoke Sprintf_s ba n) first (first :: rest)
    nilExpr env env' target args ->
  Analyze Expand Invoke Sprintf_s ba (S n) (value.List (first :: rest)) env
  = Some (env', Ok (InvokeExpr (Sprintf_s target) target args)).
Proof.
  intros Hspecial Hitems.
  change (Analyze Expand Invoke Sprintf_s ba (S n))
    with (BasicAnalyzer_Analyze Sprintf_s ba
            (Analyze Expand Invoke Sprintf_s ba n)
            (Env_Eval Expand Invoke Sprintf_s ba n)).
  rewrite BasicAnalyzer_Analyze_list.
  rewrite analyzeSeq_general by assumption.
  now rewrite (ForEach_AnalyzeItems _ first (first :: rest) env env'
                 nilExpr target args Hitems []).
Qed.

Lemma Analyze_list_invoke Expand Invoke Sprintf_s ba (n : nat)
    (first : value.Any) (rest : list value.Any) (env env1 env' : Env)
    (target : Expr) (args : list Expr) :
  specialOf ba first = None ->
  Analyze Expand Invoke Sprintf_s ba n first env = Some (env1, Ok target) ->
  target <> nilExpr ->
  RunAll (Analyze Expand Invoke Sprintf_s ba n) (first :: rest) env1 env' args ->
  Analyze Expand Invoke Sprintf_s ba (S n) (value.List (first :: rest)) env
  = Some (env', Ok (InvokeExpr (Sprintf_s target) target args)).
Proof.
  intros Hspecial Htarget Hnil Hall.
  apply Analyze_list_items; [exact Hspecial |].
  now apply (AnalyzeItems_first _ first rest env env1 env').
Qed.

(** C2.  For a non-empty sequence whose first element does not name a special
    form, and whose analyses all succeed, the analyzer builds an Invoke node
    as follows.  The first element is analyzed for the target; then every
    element of the sequence, the first one included, is analyzed in order for
    the arguments.  So the target form is analyzed a second time, that second
    result is the first argument, and there are as many arguments as the
    sequence has elements.  This is the first part, for a target whose
    analysis gives a node.  The second part is about every run of the loop,
    the one included in which the analysis of the target gives the nil
    [Expr] (a special form whose parser returns nil and no error): the
    target is then analyzed again before each later element, and the first
    two analyses are still those of the target form, the second of them
    giving the first argument. *)
Theorem analyzeSeq_target_among_args Expand Invoke Sprintf_s ba (n : nat)
    (first : value.Any) (rest : list value.Any) (env : Env) :
  let analyze := Analyze Expand Invoke Sprintf_s ba n in
  let analyzeList :=
    Analyze Expand Invoke Sprintf_s ba (S n) (value.List (first :: rest)) in
  specialOf ba first = None ->
  (forall env1 env' target args,
      analyze first env = Some (env1, Ok target) ->
      target <> nilExpr ->
      RunAll analyze (first :: rest) env1 env' args ->
      analyzeList env
      = Some (env', Ok (InvokeExpr (Sprintf_s target) target args)) /\
      length args = length (first :: rest) /\
      exists env2 again,
        analyze first env1 = Some (env2, Ok again) /\
        hd_error args = Some again) /\
  (forall env' target args,
      AnalyzeItems analyze first (first :: rest) nilExpr env env' target args ->
      analyzeList env
      = Some (env', Ok (InvokeExpr (Sprintf_s target) target args)) /\
      length args = length (first :: rest) /\
      exists env1 target0 env2 again,
        analyze first env = Some (env1, Ok target0) /\
        analyze first env1 = Some (env2, Ok again) /\
        hd_error args = Some again).
Proof.
  intros analyze analyzeList Hspecial. split.
  - intros env1 env' target args Htarget Hnil Hall. split; [| split].
    + now apply (Analyze_list_invoke Expand Invoke Sprintf_s ba n first rest
                   env env1 env').
    + apply (RunAll_length analyze _ _ _ _ Hall).
    + inversion Hall as [| x xs st st1 st' y ys Hx Hxs]; subst.
      exists st1, y. split; [assumption | reflexivity].
  - intros env' target args Hitems. split; [| split].
    + now apply Analyze_list_items.
    + apply (AnalyzeItems_length analyze first _ _ _ _ _ _ Hitems).
    + inversion Hitems
        as [| x xs t t1 t' st st1 st2 st' y ys Ht Hx Hxs]; subst.
      exists st1, t1, st2, y. repeat split; assumption.
Qed.

(** The form [(seven 1)], and the form [((w) 1 2)] under an analyzer whose
    special form [w] gives the nil [Expr]: its parser is called four times,
    once for the target, once for the first element and once more before each
    of the two other elements. *)
Lemma analyzeSeq_target_among_args_witness :
  (exampleAnalyze 3 (value.List [value.Symbol "seven"; value.Int64 1])
     exampleEnv
   = Some (exampleEnv,
           Ok (InvokeExpr "expr" (ConstExpr (value.Fn "seven"))
                 [ConstExpr (value.Fn "seven"); ConstExpr (value.Int64 1)])) /\
   length [ConstExpr (value.Fn "seven"); ConstExpr (value.Int64 1)]
   = length [value.Symbol "seven"; value.Int64 1] /\
   exists env2 again,
     exampleAnalyze 2 (value.Symbol "seven") exampleEnv
     = Some (env2, Ok again) /\
     hd_error [ConstExpr (value.Fn "seven"); ConstExpr (value.Int64 1)]
     = Some again) /\
  (Analyze identityExpander exampleInvoke exampleSprintf nilAnalyzer 3
     (value.List [value.List [value.Symbol "w"]; value.Int64 1;
                  value.Int64 2]) exampleEnv
   = Some (setGlobal "calls" (value.Int64 4) exampleEnv,
           Ok (InvokeExpr "expr" nilExpr
                 [nilExpr; ConstExpr (value.Int64 1);
                  ConstExpr (value.Int64 2)]))).
Proof.
  split.
  - apply (proj1 (analyzeSeq_target_among_args identityExpander exampleInvoke
                    exampleSprintf defaultAnalyzer 2 (value.Symbol "seven")
                    [value.Int64 1] exampleEnv eq_refl)
             exampleEnv exampleEnv (ConstExpr (value.Fn "seven"))
             [ConstExpr (value.Fn "seven"); ConstExpr (value.Int64 1)]).
    + reflexivity.
    + discriminate.
    + repeat (econstructor; [reflexivity |]). constructor.
  - apply (proj2 (analyzeSeq_target_among_args identityExpander exampleInvoke
                    exampleSprintf nilAnalyzer 2
                    (value.List [value.Symbol "w"])
                    [value.Int64 1; value.Int64 2] exampleEnv eq_refl)
             (setGlobal "calls" (value.Int64 4) exampleEnv) nilExpr
             [nilExpr; ConstExpr (value.Int64 1); ConstExpr (value.Int64 2)]).
    apply (AnalyzeItems_cons _ _ _ _ nilExpr nilExpr nilExpr exampleEnv
             (setGlobal "calls" (value.Int64 1) exampleEnv)
             (setGlobal "calls" (value.Int64 2) exampleEnv));
      [vm_compute; reflexivity | vm_compute; reflexivity |].
    apply (AnalyzeItems_cons _ _ _ _ nilExpr nilExpr nilExpr
             (setGlobal "calls" (value.Int64 2) exampleEnv)
             (setGlobal "calls" (value.Int64 3) exampleEnv)
             (setGlobal "calls" (value.Int64 3) exampleEnv));
      [vm_compute; reflexivity | vm_compute; reflexivity |].
    apply (AnalyzeItems_cons _ _ _ _ nilExpr nilExpr nilExpr
             (setGlobal "calls" (value.Int64 3) exampleEnv)
             (setGlobal "calls" (value.Int64 4) exampleEnv)
             (setGlobal "calls" (value.Int64 4) exampleEnv));
      [vm_compute; reflexivity | vm_compute; reflexivity |].
    constructor.
Defined.

(** ** Invocations and the depth bound *)

Lemma InvokeExpr_Eval_invokes Invoke (evalExpr : Expr -> M value.Any)
    (eval : value.Any -> M value.Any) (Name : string) (Target : Expr)
    (Args : list Expr) (env env1 env2 : Env) (fn : value.FnId)
    (args : list value.Any) :
  evalExpr Target env = Some (env1, Ok (value.Fn fn)) ->
  InvokeExpr_args evalExpr Args [] env1 = Some (env2, Ok args) ->
  InvokeExpr_Eval Invoke evalExpr eval Name Target Args env
  = match Invoke fn eval args (fst (push (mkFrame Name args ∅) env2)) with
    | None => None
    | Some (env3, r) => Some (pop env3, r)
    end.
Proof.
  intros Htarget Hargs. unfold InvokeExpr_Eval. unfold bind at 1.
  rewrite Htarget. unfold bind. now rewrite Hargs.
Qed.

Lemma push_full (frame : stackFrame) (env : Env) :
  (maxDepth env <= Z.of_nat (length (stack env)))%Z ->
  push frame env = (env, Some ErrStackDepth).
Proof.
  intros H. unfold push.
  destruct (Z.leb_spec (maxDepth env) (Z.of_nat (length (stack env))));
    [reflexivity | lia].
Qed.

(** Once the stack is full the push is refused, and the target is invoked all
    the same, on the stack as it was. *)
Lemma InvokeExpr_Eval_full_stack Invoke (evalExpr : Expr -> M value.Any)
    (eval : value.Any -> M value.Any) (Name : string) (Target : Expr)
    (Args : list Expr) (env env1 env2 : Env) (fn : value.FnId)
    (args : list value.Any) :
  evalExpr Target env = Some (env1, Ok (value.Fn fn)) ->
  InvokeExpr_args evalExpr Args [] env1 = Some (env2, Ok args) ->
  (maxDepth env2 <= Z.of_nat (length (stack env2)))%Z ->
  InvokeExpr_Eval Invoke evalExpr eval Name Target Args env
  = match Invoke fn eval args env2 with
    | None => None
    | Some (env3, r) => Some (pop env3, r)
    end.
Proof.
  intros Htarget Hargs Hfull.
  rewrite (InvokeExpr_Eval_invokes Invoke evalExpr eval Name Target Args
             env env1 env2 fn args Htarget Hargs).
  now rewrite push_full.
Qed.

(** Every error of an Invoke node is the error of its target, the
    not-invokable error, the error of an argument, or the error that the
    invoked function returned: none is the report of the push. *)
Lemma InvokeExpr_Eval_errors Invoke (evalExpr : Expr -> M value.Any)
    (eval : value.Any -> M value.Any) (Name : string) (Target : Expr)
    (Args : list Expr) (env env' : Env) (e : error) :
  InvokeExpr_Eval Invoke evalExpr eval Name Target Args env = Some (env', Err e) ->
  (exists env1, evalExpr Target env = Some (env1, Err e)) \/
  (exists env1 val,
      evalExpr Target env = Some (env1, Ok val) /\
      (forall fn, val <> value.Fn fn) /\
      e = Error ErrNotInvokable
            ("value of type '" +:+ TypeOf val +:+ "' is not invokable") "" 0) \/
  (exists env1 fn env2,
      evalExpr Target env = Some (env1, Ok (value.Fn fn)) /\
      InvokeExpr_args evalExpr Args [] env1 = Some (env2, Err e)) \/
  (exists env1 fn env2 args env3,
      evalExpr Target env = Some (env1, Ok (value.Fn fn)) /\
      InvokeExpr_args evalExpr Args [] env1 = Some (env2, Ok args) /\
      Invoke fn eval args (fst (push (mkFrame Name args ∅) env2))
      = Some (env3, Err e)).
Proof.
  unfold InvokeExpr_Eval. unfold bind at 1.
  destruct (evalExpr Target env) as [[env1 [val | e1]] |] eqn:Etarget;
    [| intros H; inversion H; subst; left; eauto | discriminate].
  destruct val;
    try (intros H; inversion H; subst; right; left;
         do 2 eexists;
         (split; [reflexivity | split; [intros fn; discriminate | reflexivity]])).
  unfold bind.
  destruct (InvokeExpr_args evalExpr Args [] env1)
    as [[env2 [args | e2]] |] eqn:Eargs;
    [| intros H; inversion H; subst; right; right; left; eauto | discriminate].
  destruct (Invoke f eval args _) as [[env3 r] |] eqn:Einvoke; [| discriminate].
  intros H; inversion H; subst.
  right; right; right. do 5 eexists. eauto.
Qed.

Lemma loopBound_push (frame : stackFrame) (env : Env) :
  ConcurrentMap frame = ∅ ->
  loopBound env -> loopBound (fst (push frame env)).
Proof.
  intros Hmap [Hglobal Hresolve]. unfold push.
  destruct (maxDepth env <=? Z.of_nat (length (stack env)))%Z; simpl.
  - now split.
  - split; [assumption |]. unfold resolve. simpl.
    rewrite Hmap, lookup_empty. simpl. now rewrite Hglobal.
Qed.

Lemma loop_analyze (k : nat) (env : Env) :
  loopBound env ->
  exampleAnalyze (S (S k)) loopForm env = Some (env, Ok loopExpr).
Proof.
  intros [_ Hresolve]. unfold exampleAnalyze, loopForm.
  assert (Analyze identityExpander exampleInvoke exampleSprintf
            defaultAnalyzer (S k) (value.Symbol "loop") env
          = Some (env, Ok (ConstExpr (value.Fn "loop")))) as Hsym.
  { simpl. now rewrite Hresolve. }
  apply (Analyze_list_invoke identityExpander exampleInvoke
           exampleSprintf defaultAnalyzer (S k) (value.Symbol "loop") []
           env env env (ConstExpr (value.Fn "loop"))
           [ConstExpr (value.Fn "loop")]).
  - reflexivity.
  - exact Hsym.
  - discriminate.
  - econstructor; [exact Hsym | constructor].
Qed.

Lemma loop_invoke (k : nat) (env : Env) :
  exampleExprEval (S (S k)) loopExpr env
  = match exampleEval (S k) loopForm
            (fst (push (mkFrame "expr" [value.Fn "loop"] ∅) env)) with
    | None => None
    | Some (env3, r) => Some (pop env3, r)
    end.
Proof.
  unfold exampleExprEval, loopExpr.
  change (Expr_Eval identityExpander exampleInvoke exampleSprintf
            defaultAnalyzer (S (S k)))
    with (Expr_Eval_body exampleInvoke
            (Expr_Eval identityExpander exampleInvoke exampleSprintf
               defaultAnalyzer (S k))
            (Env_Eval identityExpander exampleInvoke exampleSprintf
               defaultAnalyzer (S k))).
  unfold Expr_Eval_body.
  rewrite (InvokeExpr_Eval_invokes exampleInvoke _ _ "expr" _ _ env env env
             "loop" [value.Fn "loop"]); reflexivity.
Qed.

(** A self-recursive invocation with no base case: whatever the fuel, the
    evaluation of [(loop)] does not return, with an error or otherwise. *)
Lemma loop_never_returns (fuel : nat) :
  forall env, loopBound env -> exampleEval fuel loopForm env = None.
Proof.
  induction fuel as [fuel IH] using lt_wf_ind. intros env Hbound.
  destruct fuel as [| [| [| k]]]; try reflexivity.
  change (exampleEval (S (S (S k))) loopForm env)
    with (bind (exampleAnalyze (S (S k)) loopForm)
               (exampleExprEval (S (S k))) env).
  unfold bind. rewrite (loop_analyze k env Hbound).
  rewrite loop_invoke.
  rewrite IH; [reflexivity | lia |].
  now apply loopBound_push.
Qed.

Lemma loopBound_exampleEnv : loopBound exampleEnv.
Proof. split; reflexivity. Qed.

(** C1.  The call stack of [fullEnv] holds as many frames as its depth bound
    allows, so the push of a further frame reports the stack-depth error.
    The Invoke node drops that report: the target is invoked and its result 7
    is the result of the node.  The same holds when the form [(seven)] goes
    through the whole pipeline.  And the self-recursive [(loop)] does not end
    with the stack-depth error: it does not return for any amount of fuel. *)
Theorem InvokeExpr_Eval_beyond_max_depth :
  push (mkFrame "seven" [] ∅) fullEnv = (fullEnv, Some ErrStackDepth) /\
  exampleExprEval 2 (InvokeExpr "seven" (ConstExpr (value.Fn "seven")) [])
    fullEnv
  = Some (pop fullEnv, Ok (value.Int64 7)) /\
  exampleEval 4 (value.List [value.Symbol "seven"]) fullEnv
  = Some (pop fullEnv, Ok (value.Int64 7)) /\
  (forall fuel, exampleEval fuel loopForm exampleEnv = None).
Proof.
  repeat split.
  intros fuel. apply loop_never_returns. exact loopBound_exampleEnv.
Qed.

(** ** The reader macros *)

Section QuoteFormReader.

Variable Reader : Type.
Variable One : StateErr Reader value.Any.

Lemma quoteFormReader_wraps (expandFunc : string) (init : rune)
    (rd rd' : Reader) (expr : value.Any) :
  One rd = Some (rd', Ok expr) ->
  reader.quoteFormReader Reader One expandFunc init rd
  = Some (rd', Ok (value.List [value.Symbol expandFunc; expr])).
Proof. intros H. unfold reader.quoteFormReader. now rewrite H. Qed.

Lemma quoteFormReader_EOF (expandFunc : string) (init : rune) (rd rd' : Reader) :
  One rd = Some (rd', Err io_EOF) ->
  reader.quoteFormReader Reader One expandFunc init rd
  = Some (rd', Err (Error ErrEOF "" expandFunc 0)).
Proof. intros H. unfold reader.quoteFormReader. now rewrite H. Qed.

Lemma quoteFormReader_skip (expandFunc : string) (init : rune) (rd rd' : Reader) :
  One rd = Some (rd', Err ErrSkip) ->
  reader.quoteFormReader Reader One expandFunc init rd
  = Some (rd', Err (Error (errors_New "cannot quote a no-op form")
                      "" expandFunc 0)).
Proof. intros H. unfold reader.quoteFormReader. now rewrite H. Qed.

End QuoteFormReader.

(** [One] retries on the skip signal, so it never hands it to its caller. *)
Lemma One_never_skips (fuel : nat) (rd rd' : reader.Rd) :
  reader.One fuel rd <> Some (rd', Err ErrSkip).
Proof.
  revert rd. induction fuel as [|n IH]; intros rd; [discriminate |].
  simpl. unfold reader.One_body.
  destruct (reader.readOne n rd) as [[rd1 [v | e]] |]; try discriminate.
  destruct e; try (intros H; discriminate H). apply IH.
Qed.

(** No macro of the reader, and so no call of [One], ends with the error
    "cannot quote a no-op form". *)
Lemma readComment_loop_errors (k : nat) (rd rd' : reader.Rd) (e : error) :
  reader.readComment_loop reader.Rd reader.NextRune k rd = Some (rd', Err e) ->
  otherCause e.
Proof.
  revert rd. induction k as [|k IH]; intros rd; [discriminate |].
  simpl. unfold bind, reader.NextRune.
  destruct (reader.input rd) as [|r rest].
  - intros H; inversion H; subst; exact I.
  - destruct (r =? 10)%Z.
    + intros H; inversion H; subst; exact I.
    + apply IH.
Qed.

Lemma Container_loop_errors (readOne : StateErr reader.Rd value.Any) :
  (forall rd rd' e, readOne rd = Some (rd', Err e) -> otherCause e) ->
  forall k forms end_ formType rd rd' e,
    reader.Container_loop k readOne forms end_ formType rd = Some (rd', Err e) ->
    otherCause e.
Proof.
  intros Hone k. induction k as [|k IH]; intros forms end_ formType rd rd' e;
    [discriminate |].
  simpl. destruct (reader.dropSpaces (reader.input rd)) as [|r rest].
  - intros H; inversion H; subst; exact I.
  - destruct (r =? end_)%Z; [discriminate |].
    destruct (readOne (reader.SkipSpaces rd)) as [[rd2 [v | e2]] |] eqn:E;
      [apply IH | | discriminate].
    pose proof (Hone _ _ _ E) as Hok.
    destruct e2; try (intros H; inversion H; subst; exact Hok).
    apply IH.
Qed.

Lemma parseRadix_errors (numStr : string) (e : error) :
  reader.parseRadix numStr = Err e -> otherCause e.
Proof.
  unfold reader.parseRadix.
  repeat match goal with
         | |- context [match ?x with _ => _ end] => destruct x
         end;
    intros H; try discriminate; inversion H; subst; exact I.
Qed.

Lemma readNumber_errors (init : rune) (rd rd' : reader.Rd) (e : error) :
  reader.readNumber reader.Rd reader.Token reader.noScientific
    reader.parseRadix reader.noFloat reader.ParseInt init rd = Some (rd', Err e) ->
  otherCause e.
Proof.
  unfold reader.readNumber, bind, reader.Token, lift, raise, ret,
    reader.noScientific, reader.noFloat.
  repeat match goal with
         | |- context [if ?c then _ else _] => destruct c
         | |- context [match reader.ParseInt ?a ?b ?c with _ => _ end] =>
             destruct (reader.ParseInt a b c)
         end;
    intros H; try discriminate; inversion H; subst;
    try exact I; eauto using parseRadix_errors.
Qed.

Lemma quoteFormReader_errors (One : StateErr reader.Rd value.Any)
    (expandFunc : string) (init : rune) (rd rd' : reader.Rd) (e : error) :
  (forall rd rd' e, One rd = Some (rd', Err e) -> otherCause e) ->
  (forall rd rd', One rd <> Some (rd', Err ErrSkip)) ->
  reader.quoteFormReader reader.Rd One expandFunc init rd = Some (rd', Err e) ->
  otherCause e.
Proof.
  intros Hok Hskip. unfold reader.quoteFormReader.
  destruct (One rd) as [[rd1 [v | e1]] |] eqn:E; try discriminate.
  pose proof (Hok _ _ _ E) as Hok1.
  destruct e1; intros H; inversion H; subst; try exact I; try exact Hok1.
  exfalso. exact (Hskip _ _ E).
Qed.

Lemma reader_errors (fuel : nat) :
  (forall rd rd' e, reader.One fuel rd = Some (rd', Err e) -> otherCause e) /\
  (forall rd rd' e, reader.readOne fuel rd = Some (rd', Err e) -> otherCause e).
Proof.
  induction fuel as [|n [IHone IHread]]; [split; discriminate |].
  split.
  - intros rd rd' e. simpl. unfold reader.One_body.
    destruct (reader.readOne n rd) as [[rd1 [v | e1]] |] eqn:E;
      try discriminate.
    pose proof (IHread _ _ _ E) as Hok.
    destruct e1; try (intros H; inversion H; subst; exact Hok).
    apply IHone.
  - intros rd rd' e. simpl. unfold reader.readOne_body.
    destruct (reader.input (reader.SkipSpaces rd)) as [|r rest].
    { intros H; inversion H; subst; exact I. }
    destruct (reader.startsNumber r rest); [apply readNumber_errors |].
    destruct (reader.macros rd !! r) as [m |].
    + destruct m; unfold reader.runMacro; cbv beta.
      * apply readComment_loop_errors.
      * unfold reader.readKeyword, bind, reader.Token, ret. discriminate.
      * unfold reader.readList, bind, lift, value.NewList.
        destruct (reader.Container_loop _ _ _ _ _ _)
          as [[rd2 [forms | e2]] |] eqn:E; try discriminate.
        intros H; inversion H; subst.
        exact (Container_loop_errors _ IHread _ _ _ _ _ _ _ E).
      * apply quoteFormReader_errors; [exact IHone |].
        intros rd0 rd0'. apply One_never_skips.
      * unfold reader.UnmatchedDelimiter, raise.
        intros H; inversion H; subst; exact I.
    + unfold reader.readSymbol, bind, reader.Token, ret. simpl. discriminate.
Qed.

(** C7.  The quote macro is triggered by ['] and is followed by a comment, a
    no-op form, and then by the symbol [x].  The reader does not fail with
    "cannot quote a no-op form": [One], which the macro calls, has skipped the
    comment, and the macro wraps the next form, [(quote x)].  No input at all
    makes the reader fail with that error. *)
Theorem quoteFormReader_after_comment :
  let src := "';no-op" +:+ bytes [10%nat] +:+ "x" in
  (exists rd',
      reader.One 5 (reader.exampleReader src)
      = Some (rd', Ok (value.List [value.Symbol "quote"; value.Symbol "x"])) /\
      reader.input rd' = []) /\
  (forall fuel rd rd' expandFunc,
      reader.One fuel rd
      <> Some (rd', Err (Error (errors_New "cannot quote a no-op form")
                           "" expandFunc 0))).
Proof.
  split.
  - eexists. split; reflexivity.
  - intros fuel rd rd' expandFunc H.
    exact (proj1 (reader_errors fuel) _ _ _ H).
Qed.

(** The reader tests [UnQuote], [QuotedEOF], [ListEOF], [Empty] and
    [ListWithCommaSeparator] (with an integer for its last element). *)
Example reader_test_UnQuote :
  exists rd',
    reader.One 10 (reader.exampleReader "~(x 3)")
    = Some (rd', Ok (value.List [value.Symbol "unquote";
                                 value.List [value.Symbol "x"; value.Int64 3]])).
Proof. eexists. vm_compute. reflexivity. Qed.

Example reader_test_QuotedEOF :
  exists rd',
    reader.One 10
      (reader.exampleReader ("';comment is a no-op form" +:+ bytes [10%nat]))
    = Some (rd', Err (Error ErrEOF "" "quote" 0)).
Proof. eexists. vm_compute. reflexivity. Qed.

Example reader_test_ListEOF :
  exists rd',
    reader.One 10 (reader.exampleReader "( 1")
    = Some (rd', Err (Error ErrEOF "" "list" 0)).
Proof. eexists. vm_compute. reflexivity. Qed.

Example reader_test_Empty :
  exists rd', reader.One 10 (reader.exampleReader "") = Some (rd', Err io_EOF).
Proof. eexists. vm_compute. reflexivity. Qed.

Example reader_test_ListWithCommaSeparator :
  exists rd',
    reader.One 10 (reader.exampleReader "(+,0xF,3)")
    = Some (rd', Ok (value.List [value.Symbol "+"; value.Int64 15;
                                 value.Int64 3])).
Proof. eexists. vm_compute. reflexivity. Qed.

(** Integer literals of the reader tests in [TestReader_One_Number]. *)
Example reader_test_numbers :
  let read src :=
    option_map snd (reader.One 3 (reader.exampleReader src)) in
  read "    +1234" = Some (Ok (value.Int64 1234)) /\
  read "-0x124" = Some (Ok (value.Int64 (-292))) /\
  read "0123" = Some (Ok (value.Int64 83)) /\
  read "-0b10" = Some (Ok (value.Int64 (-2))) /\
  read "-4r123" = Some (Ok (value.Int64 (-27))) /\
  read "1r2r3" = Some (Err (Error ErrNumberFormat "" "1r2r3" 0)) /\
  read "-3r1234" = Some (Err (Error ErrNumberFormat "" "-3r1234" 0)) /\
  read "2r" = Some (Err (Error ErrNumberFormat "" "2r" 0)) /\
  read "2ar" = Some (Err (Error ErrNumberFormat "" "2ar" 0)) /\
  read "2.3r4" = Some (Err (Error ErrNumberFormat "" "2.3r4" 0)) /\
  read "08" = Some (Err (Error ErrNumberFormat "" "08" 0)).
Proof. repeat split; vm_compute; reflexivity. Qed.

(** C9.  When the token holds the radix marker [r] together with a decimal
    point or the scientific marker [e], [readNumber] fails with the
    number-format error that carries the token.  The parsers of scientific,
    radix, floating-point and integer literals are arbitrary here: none of
    them has a say in the result. *)
Theorem readNumber_conflicting_markers (Reader : Type)
    (Token : rune -> StateErr Reader string)
    (parseScientific parseRadix : string -> Result value.Any)
    (strconv_ParseFloat : string -> Z -> Result Z)
    (strconv_ParseInt : string -> Z -> Z -> Result Z)
    (init : rune) (rd rd' : Reader) (numStr : string) :
  Token init rd = Some (rd', Ok numStr) ->
  reader.ContainsRune numStr "r" = true ->
  reader.ContainsRune numStr "." = true
  \/ reader.ContainsRune numStr "e" = true ->
  reader.readNumber Reader Token parseScientific parseRadix
    strconv_ParseFloat strconv_ParseInt init rd
  = Some (rd', Err (Error ErrNumberFormat "" numStr 0)).
Proof.
  intros Htoken Hradix Hconflict.
  unfold reader.readNumber, bind. rewrite Htoken, Hradix.
  destruct Hconflict as [H | H]; rewrite H.
  - reflexivity.
  - now rewrite orb_true_r.
Qed.

(** The token of the reader test [RadixWithFloat]. *)
Lemma readNumber_conflicting_markers_witness :
  reader.readNumber reader.Rd reader.Token reader.noScientific
    reader.parseRadix reader.noFloat reader.ParseInt 50
    (reader.exampleReader ".3r4 7")
  = Some (reader.setInput [32; 55]%Z (reader.exampleReader ".3r4 7"),
          Err (Error ErrNumberFormat "" "2.3r4" 0)).
Proof.
  apply (readNumber_conflicting_markers reader.Rd reader.Token
           reader.noScientific reader.parseRadix reader.noFloat reader.ParseInt
           50 (reader.exampleReader ".3r4 7")
           (reader.setInput [32; 55]%Z (reader.exampleReader ".3r4 7"))
           "2.3r4").
  - reflexivity.
  - reflexivity.
  - left. reflexivity.
Defined.


(** * Further properties of the evaluator *)

Section Pipeline.

Variable Invoke :
  value.FnId -> (value.Any -> M value.Any) -> list value.Any -> M value.Any.
Variable Sprintf_s : Expr -> string.
Variable ba : BasicAnalyzer.

Let eval := Env_Eval identityExpander Invoke Sprintf_s ba.
Let analyze := Analyze identityExpander Invoke Sprintf_s ba.
Let evalExpr := Expr_Eval identityExpander Invoke Sprintf_s ba.

Lemma Env_Eval_step (n : nat) (form : value.Any) (env : Env) :
  eval (S n) form env
  = match analyze n form env with
    | None => None
    | Some (env1, Ok e) => evalExpr n e env1
    | Some (env1, Err e) => Some (env1, Err e)
    end.
Proof. reflexivity. Qed.

Lemma Analyze_selfEvaluating (n : nat) (form : value.Any) (env : Env) :
  selfEvaluating form ->
  analyze (S n) form env = Some (env, Ok (ConstExpr form)).
Proof.
  intros H. destruct form as [| | | | | | | | | items |]; try reflexivity.
  - contradiction.
  - destruct items; [reflexivity | contradiction].
Qed.

Lemma Env_Eval_selfEvaluating (n : nat) (form : value.Any) (env : Env) :
  selfEvaluating form ->
  eval (2 + n) form env = Some (env, Ok form).
Proof.
  intros H. change (2 + n)%nat with (S (S n)).
  rewrite Env_Eval_step, Analyze_selfEvaluating by assumption.
  reflexivity.
Qed.

Lemma Analyze_symbol (n : nat) (s : string) (env : Env) :
  analyze (S n) (value.Symbol s) env
  = match resolve s env with
    | value.nilAny => Some (env, Err (Error ErrNotFound (fmt.Sprintf s) "" 0))
    | v => Some (env, Ok (ConstExpr v))
    end.
Proof. reflexivity. Qed.

Lemma Env_Eval_symbol (n : nat) (s : string) (env : Env) :
  resolve s env <> value.nilAny ->
  eval (2 + n) (value.Symbol s) env = Some (env, Ok (resolve s env)).
Proof.
  intros H. change (2 + n)%nat with (S (S n)).
  rewrite Env_Eval_step, Analyze_symbol.
  destruct (resolve s env); try reflexivity. contradiction.
Qed.

End Pipeline.

(** X1.  With the table of [WithAnalyzer(nil)], the form [(quote f)] evaluates
    to [f] itself, whatever [f] is and whatever the environment binds: [f] is
    neither analyzed nor evaluated, and the environment is left as it was. *)
Theorem quote_returns_form_unevaluated Invoke Sprintf_s (n : nat)
    (form : value.Any) (env : Env) :
  Env_Eval identityExpander Invoke Sprintf_s defaultAnalyzer (2 + n)
    (value.List [value.Symbol "quote"; form]) env
  = Some (env, Ok form).
Proof. reflexivity. Qed.

(** X2.  [parseQuoteExpr] takes exactly one argument: one argument, of any
    kind, gives the Quote node of it; every other number of arguments gives
    the error that names the count, and nothing is evaluated either way. *)
Theorem parseQuoteExpr_arity (eval : value.Any -> M value.Any) (env : Env) :
  (forall v, parseQuoteExpr eval [v] env = Some (env, Ok (QuoteExpr v))) /\
  (forall args,
      length args <> 1%nat ->
      parseQuoteExpr eval args env
      = Some (env, Err (Error (errors_New "invalid def form")
                          ("requires exactly 1 argument, got "
                           +:+ pretty (Z.of_nat (length args))) "" 0))).
Proof.
  split; [reflexivity |].
  intros args Hlen. unfold parseQuoteExpr, bind, lift, value.Count.
  destruct (Z.eqb_spec (Z.of_nat (length args)) 1) as [H | H].
  - exfalso. apply Hlen. lia.
  - reflexivity.
Qed.

(** X3.  A constant form, that is any form but a symbol or a non-empty list
    (the empty list included), evaluates to itself through the whole
    pipeline and leaves the environment as it was. *)
Theorem constant_evaluates_to_itself Invoke Sprintf_s ba (n : nat)
    (form : value.Any) (env : Env) :
  selfEvaluating form ->
  Env_Eval identityExpander Invoke Sprintf_s ba (2 + n) form env
  = Some (env, Ok form).
Proof. apply Env_Eval_selfEvaluating. Qed.

Lemma constant_evaluates_to_itself_witness :
  exampleEval 2 (value.List []) fullEnv = Some (fullEnv, Ok (value.List [])).
Proof.
  apply (constant_evaluates_to_itself exampleInvoke exampleSprintf
           defaultAnalyzer 0 (value.List []) fullEnv).
  exact I.
Defined.

(** A format with no percent sign is printed as it is. *)
Lemma Sprintf_loop_plain (s : string) :
  reader.ContainsRune s "%" = false ->
  forall n, (String.length s <= n)%nat -> fmt.Sprintf_loop n s = s.
Proof.
  unfold reader.ContainsRune.
  induction s as [| c rest IH]; intros Hplain n Hn.
  - destruct n; reflexivity.
  - destruct n as [| n]; [simpl in Hn; lia |].
    cbn [list_ascii_of_string existsb] in Hplain.
    apply orb_false_iff in Hplain as [Hc Hrest].
    cbn [fmt.Sprintf_loop].
    destruct (Ascii.eqb_spec c "%") as [-> | _].
    + rewrite Ascii.eqb_refl in Hc. discriminate.
    + rewrite (IH Hrest n) by (simpl in Hn; lia). reflexivity.
Qed.

(** X4.  The analysis of a symbol takes the value that the symbol has at that
    moment.  An unbound symbol is the not-found error whose message is
    [fmt.Sprintf] of the name, with the name as the format: the name itself
    when it has no percent sign, and for a name such as [a%b] the text that
    fmt writes for a verb without operand.  A bound symbol is a constant node
    that evaluates to that value in every later environment, whatever the
    symbol is bound to by then. *)
Theorem Analyze_symbol_takes_current_value Invoke Sprintf_s ba (n : nat)
    (s : string) (env : Env) :
  let analyze := Analyze identityExpander Invoke Sprintf_s ba (S n) in
  (resolve s env = value.nilAny ->
   analyze (value.Symbol s) env
   = Some (env, Err (Error ErrNotFound (fmt.Sprintf s) "" 0)) /\
   (reader.ContainsRune s "%" = false -> fmt.Sprintf s = s)) /\
  (resolve s env <> value.nilAny ->
   analyze (value.Symbol s) env = Some (env, Ok (ConstExpr (resolve s env))) /\
   forall m env',
     Expr_Eval identityExpander Invoke Sprintf_s ba (S m)
       (ConstExpr (resolve s env)) env'
     = Some (env', Ok (resolve s env))).
Proof.
  intros analyze. unfold analyze. split; intros H.
  - split.
    + rewrite Analyze_symbol, H. reflexivity.
    + intros Hplain. now apply Sprintf_loop_plain.
  - split; [| reflexivity].
    rewrite Analyze_symbol. destruct (resolve s env); try reflexivity.
    contradiction.
Qed.

(** The unbound symbols [undefined], [a%b] and [%]. *)
Example Analyze_symbol_percent :
  exampleAnalyze 1 (value.Symbol "undefined") exampleEnv
  = Some (exampleEnv, Err (Error ErrNotFound "undefined" "" 0)) /\
  exampleAnalyze 1 (value.Symbol "a%b") exampleEnv
  = Some (exampleEnv, Err (Error ErrNotFound "a%!b(MISSING)" "" 0)) /\
  exampleAnalyze 1 (value.Symbol "%") exampleEnv
  = Some (exampleEnv, Err (Error ErrNotFound "%!(NOVERB)" "" 0)).
Proof. repeat split. Qed.

(** ** The def special form through the pipeline *)

Lemma Analyze_def Invoke Sprintf_s (n : nat) (a : string) (second : value.Any)
    (env : Env) :
  Analyze identityExpander Invoke Sprintf_s defaultAnalyzer (S n)
    (value.List [value.Symbol "def"; value.Symbol a; second]) env
  = match Env_Eval identityExpander Invoke Sprintf_s defaultAnalyzer n
            second env with
    | None => None
    | Some (env1, Ok res) => Some (env1, Ok (DefExpr a res))
    | Some (env1, Err e) => Some (env1, Err e)
    end.
Proof.
  change (Analyze identityExpander Invoke Sprintf_s defaultAnalyzer (S n)
            (value.List [value.Symbol "def"; value.Symbol a; second]) env)
    with (parseDefExpr
            (Env_Eval identityExpander Invoke Sprintf_s defaultAnalyzer n)
            [value.Symbol a; second] env).
  unfold parseDefExpr, bind, lift, ret. simpl.
  destruct (Env_Eval _ _ _ _ _ _ _) as [[env1 [res | e]] |]; reflexivity.
Qed.

Lemma resolve_setGlobal (name : string) (v : value.Any) (env : Env) :
  notShadowed name env -> resolve name (setGlobal name v env) = v.
Proof.
  unfold notShadowed, resolve, setGlobal. simpl.
  destruct (stack env) as [| frame frames]; intros H.
  - now rewrite lookup_insert_eq.
  - now rewrite H, lookup_insert_eq.
Qed.

(** X5.  A definition followed by a lookup: [(def s v)] for a constant [v]
    returns the trimmed name as a Symbol, and evaluating that symbol in the
    environment the definition left gives [v] back, provided the current
    frame has no local binding of the name. *)
Theorem def_then_symbol_gives_value Invoke Sprintf_s (n : nat) (s : string)
    (v : value.Any) (env : Env) :
  let eval := Env_Eval identityExpander Invoke Sprintf_s defaultAnalyzer in
  selfEvaluating v -> v <> value.nilAny ->
  TrimSpace s <> "" ->
  notShadowed (TrimSpace s) env ->
  exists env',
    eval (4 + n)%nat
      (value.List [value.Symbol "def"; value.Symbol s; v]) env
    = Some (env', Ok (value.Symbol (TrimSpace s))) /\
    eval (2 + n)%nat (value.Symbol (TrimSpace s)) env' = Some (env', Ok v).
Proof.
  intros eval Hconst Hnil Hname Hshadow.
  exists (setGlobal (TrimSpace s) v env). split.
  - unfold eval. change (4 + n)%nat with (S (S (2 + n))).
    rewrite Env_Eval_step, Analyze_def.
    rewrite Env_Eval_selfEvaluating by assumption.
    change (Expr_Eval identityExpander Invoke Sprintf_s defaultAnalyzer
              (S (2 + n)) (DefExpr s v) env)
      with (DefExpr_Eval s v env).
    unfold DefExpr_Eval.
    destruct (String.eqb (TrimSpace s) "") eqn:E; [| reflexivity].
    apply String.eqb_eq in E. contradiction.
  - unfold eval. rewrite Env_Eval_symbol;
      rewrite resolve_setGlobal by assumption; [reflexivity | assumption].
Qed.

Lemma def_then_symbol_gives_value_witness :
  exists env',
    exampleEval 4
      (value.List [value.Symbol "def"; value.Symbol "x"; value.Int64 5])
      fullEnv
    = Some (env', Ok (value.Symbol "x")) /\
    exampleEval 2 (value.Symbol "x") env' = Some (env', Ok (value.Int64 5)).
Proof.
  apply (def_then_symbol_gives_value exampleInvoke exampleSprintf 0 "x"
           (value.Int64 5) fullEnv).
  - exact I.
  - discriminate.
  - discriminate.
  - reflexivity.
Defined.

(** X6.  The value form of a [def] is evaluated while the form is analyzed:
    the analysis ends in the environment that this evaluation left, with the
    Def node of the computed value, or with the error of the evaluation.  The
    name itself is not bound by the analysis. *)
Theorem def_value_is_evaluated_during_analysis Invoke Sprintf_s (n : nat)
    (a : string) (second : value.Any) (env env1 : Env)
    (r : Result value.Any) :
  Env_Eval identityExpander Invoke Sprintf_s defaultAnalyzer n second env
  = Some (env1, r) ->
  Analyze identityExpander Invoke Sprintf_s defaultAnalyzer (S n)
    (value.List [value.Symbol "def"; value.Symbol a; second]) env
  = Some (env1, match r with
                | Ok res => Ok (DefExpr a res)
                | Err e => Err e
                end).
Proof.
  intros H. rewrite Analyze_def, H. now destruct r.
Qed.

(** The analysis of [(def a (def b 1))] binds [b] and not [a]. *)
Lemma def_value_is_evaluated_during_analysis_witness :
  exampleAnalyze 5
    (value.List [value.Symbol "def"; value.Symbol "a";
                 value.List [value.Symbol "def"; value.Symbol "b";
                             value.Int64 1]]) exampleEnv
  = Some (setGlobal "b" (value.Int64 1) exampleEnv,
          Ok (DefExpr "a" (value.Symbol "b"))).
Proof.
  apply (def_value_is_evaluated_during_analysis exampleInvoke exampleSprintf 4
           "a" (value.List [value.Symbol "def"; value.Symbol "b"; value.Int64 1])
           exampleEnv (setGlobal "b" (value.Int64 1) exampleEnv)
           (Ok (value.Symbol "b"))).
  reflexivity.
Defined.

(** X7.  [parseDefExpr] evaluates nothing unless its arguments are a symbol
    and one more form: for every other argument list it fails with the
    "invalid def form" error in the environment as it was, whatever the
    evaluator would do. *)
Theorem parseDefExpr_rejects_malformed (args : list value.Any) (env : Env) :
  (forall s x, args <> [value.Symbol s; x]) ->
  exists msg,
    forall eval : value.Any -> M value.Any,
      parseDefExpr eval args env
      = Some (env, Err (Error (errors_New "invalid def form") msg "" 0)).
Proof.
  intros Hshape.
  destruct args as [| a [| b [| c rest]]];
    try (eexists; intros eval; reflexivity).
  - destruct a; try (eexists; intros eval; reflexivity).
    exfalso. eapply Hshape. reflexivity.
  - eexists. intros eval. unfold parseDefExpr, bind, lift, value.Count.
    destruct (Z.eqb_spec (Z.of_nat (length (a :: b :: c :: rest))) 2)
      as [H | H]; [simpl length in H; lia | reflexivity].
Qed.

(** The form [(def 1 5)]. *)
Lemma parseDefExpr_rejects_malformed_witness :
  exists msg,
    forall eval : value.Any -> M value.Any,
      parseDefExpr eval [value.Int64 1; value.Int64 5] exampleEnv
      = Some (exampleEnv, Err (Error (errors_New "invalid def form") msg "" 0)).
Proof.
  apply (parseDefExpr_rejects_malformed [value.Int64 1; value.Int64 5]
           exampleEnv).
  intros s x. discriminate.
Defined.

(** ** Errors of a general invocation form *)

Section AnalyzeSeqErrors.

Variable Sprintf_s : Expr -> string.
Variable analyze : value.Any -> M Expr.
Variable first : value.Any.

Lemma analyzeSeq_item_target_fails (x : value.Any) (env env1 : Env)
    (target : Expr) (acc : list Expr) (e : error) :
  analyzeSeq_target analyze first target env = Some (env1, Err e) ->
  analyzeSeq_item analyze first x (target, acc) env = Some (env1, Err e).
Proof.
  intros Ht. unfold analyzeSeq_item, bind, ret. cbn [fst snd].
  now rewrite Ht.
Qed.

Lemma analyzeSeq_item_fails (x : value.Any) (env env1 env2 : Env)
    (target target1 : Expr) (acc : list Expr) (e : error) :
  analyzeSeq_target analyze first target env = Some (env1, Ok target1) ->
  analyze x env1 = Some (env2, Err e) ->
  analyzeSeq_item analyze first x (target, acc) env = Some (env2, Err e).
Proof.
  intros Ht Hx. unfold analyzeSeq_item, bind, ret. cbn [fst snd].
  rewrite Ht. now rewrite Hx.
Qed.

(** The loop stops at the first analysis that fails, be it one of the target
    or one of an element. *)
Lemma ForEach_analyzeSeq_abort (before : list value.Any) (env env2 : Env)
    (target target2 : Expr) (ys : list Expr) :
  AnalyzeItems analyze first before target env env2 target2 ys ->
  forall item after acc,
    (forall env3 e,
        analyzeSeq_target analyze first target2 env2 = Some (env3, Err e) ->
        ForEach (before ++ item :: after) (analyzeSeq_item analyze first)
          (target, acc) env
        = Some (env3, Err e)) /\
    (forall env3 target3 env4 e,
        analyzeSeq_target analyze first target2 env2
        = Some (env3, Ok target3) ->
        analyze item env3 = Some (env4, Err e) ->
        ForEach (before ++ item :: after) (analyzeSeq_item analyze first)
          (target, acc) env
        = Some (env4, Err e)).
Proof.
  induction 1 as [t st | x xs t t1 t' st st1 st2 st' y ys Ht Hx Hxs IH];
    intros item after acc.
  - change ([] ++ item :: after)%list with (item :: after). split.
    + intros env3 e Hfail. rewrite ForEach_cons.
      now rewrite (analyzeSeq_item_target_fails item st env3 t acc e Hfail).
    + intros env3 target3 env4 e Htarget Hitem. rewrite ForEach_cons.
      now rewrite (analyzeSeq_item_fails item st env3 env4 t target3 acc e
                     Htarget Hitem).
  - change ((x :: xs) ++ item :: after)%list
      with (x :: (xs ++ item :: after))%list.
    destruct (IH item after (acc ++ [y])%list) as [IH1 IH2].
    split.
    + intros env3 e Hfail. rewrite ForEach_cons.
      rewrite (analyzeSeq_item_step analyze first x st st1 st2 y t t1 acc
                 Ht Hx).
      cbn [fst snd]. now apply IH1.
    + intros env3 target3 env4 e Htarget Hitem. rewrite ForEach_cons.
      rewrite (analyzeSeq_item_step analyze first x st st1 st2 y t t1 acc
                 Ht Hx).
      cbn [fst snd]. now apply (IH2 env3 target3).
Qed.

End AnalyzeSeqErrors.

(** X8.  A general invocation form fails in analysis with the error of the
    first analysis that fails: that of the target, or, after the target and
    the elements before it have analyzed, that of an element.  The elements
    after the failing one are not analyzed, and no node is evaluated.  The
    second part is for a target whose analysis gives a node; the third is
    about every run of the loop, the one included in which the analysis of
    the target gives the nil [Expr], so that the target is analyzed again
    before the next element and that analysis, too, may be the one that
    fails. *)
Theorem Analyze_invocation_first_error Expand Invoke Sprintf_s ba (n : nat)
    (first : value.Any) (rest : list value.Any) (env : Env) :
  let analyze := Analyze Expand Invoke Sprintf_s ba n in
  let analyzeList :=
    Analyze Expand Invoke Sprintf_s ba (S n) (value.List (first :: rest)) in
  specialOf ba first = None ->
  (forall env1 e,
      analyze first env = Some (env1, Err e) ->
      analyzeList env = Some (env1, Err e)) /\
  (forall before item after env1 env2 env3 target args e,
      (first :: rest = before ++ item :: after)%list ->
      analyze first env = Some (env1, Ok target) ->
      target <> nilExpr ->
      RunAll analyze before env1 env2 args ->
      analyze item env2 = Some (env3, Err e) ->
      analyzeList env = Some (env3, Err e)) /\
  (forall before item after env2 target args,
      (first :: rest = before ++ item :: after)%list ->
      AnalyzeItems analyze first before nilExpr env env2 target args ->
      (forall env3 e,
          analyzeSeq_target analyze first target env2 = Some (env3, Err e) ->
          analyzeList env = Some (env3, Err e)) /\
      (forall env3 target' env4 e,
          analyzeSeq_target analyze first target env2
          = Some (env3, Ok target') ->
          analyze item env3 = Some (env4, Err e) ->
          analyzeList env = Some (env4, Err e))).
Proof.
  intros analyze analyzeList Hspecial.
  assert (analyzeList env
          = match ForEach (first :: rest) (analyzeSeq_item analyze first)
                    (nilExpr, []) env with
            | None => None
            | Some (env', Ok st) =>
                Some (env', Ok (InvokeExpr (Sprintf_s (fst st)) (fst st)
                                  (snd st)))
            | Some (env', Err e) => Some (env', Err e)
            end) as Hlist.
  { unfold analyzeList.
    change (Analyze Expand Invoke Sprintf_s ba (S n))
      with (BasicAnalyzer_Analyze Sprintf_s ba analyze
              (Env_Eval Expand Invoke Sprintf_s ba n)).
    rewrite BasicAnalyzer_Analyze_list.
    now rewrite analyzeSeq_general. }
  assert (Hgeneral :
            forall before item after env2 target args,
              (first :: rest = before ++ item :: after)%list ->
              AnalyzeItems analyze first before nilExpr env env2 target args ->
              (forall env3 e,
                  analyzeSeq_target analyze first target env2
                  = Some (env3, Err e) ->
                  analyzeList env = Some (env3, Err e)) /\
              (forall env3 target' env4 e,
                  analyzeSeq_target analyze first target env2
                  = Some (env3, Ok target') ->
                  analyze item env3 = Some (env4, Err e) ->
                  analyzeList env = Some (env4, Err e))).
  { intros before item after env2 target args Hseq Hitems.
    destruct (ForEach_analyzeSeq_abort analyze first before env env2 nilExpr
                target args Hitems item after []) as [H1 H2].
    rewrite Hlist, Hseq. split.
    - intros env3 e Hfail. now rewrite (H1 env3 e Hfail).
    - intros env3 target' env4 e Htarget Hitem.
      now rewrite (H2 env3 target' env4 e Htarget Hitem). }
  split; [| split].
  - intros env1 e Hfirst.
    apply (proj1 (Hgeneral [] first rest env nilExpr [] eq_refl
                    (AnalyzeItems_nil analyze first nilExpr env))).
    exact Hfirst.
  - intros before item after env1 env2 env3 target args e Hseq Htarget Hnil
      Hall Hitem.
    destruct Hall as [st | x xs st st1 st' y ys Hx Hxs].
    + apply (proj2 (Hgeneral [] item after env nilExpr [] Hseq
                      (AnalyzeItems_nil analyze first nilExpr env))
               st target env3 e); assumption.
    + assert (x = first) as -> by (simpl in Hseq; congruence).
      apply (proj2 (Hgeneral (first :: xs) item after st' target (y :: ys)
                      Hseq
                      (AnalyzeItems_first analyze first xs env st st'
                         target (y :: ys) Htarget Hnil
                         (RunAll_cons analyze first xs st st1 st' y ys
                            Hx Hxs)))
               st' target env3 e).
      * now apply analyzeSeq_target_kept.
      * exact Hitem.
  - exact Hgeneral.
Qed.

(** The form [(seven 1 undefined loop)], where [undefined] is not bound, and
    the form [((w) undefined)] under an analyzer whose special form [w]
    gives the nil [Expr]: its parser has run three times when the analysis
    of [undefined] fails. *)
Lemma Analyze_invocation_first_error_witness :
  exampleAnalyze 3
    (value.List [value.Symbol "seven"; value.Int64 1;
                 value.Symbol "undefined"; value.Symbol "loop"]) exampleEnv
  = Some (exampleEnv, Err (Error ErrNotFound "undefined" "" 0)) /\
  Analyze identityExpander exampleInvoke exampleSprintf nilAnalyzer 3
    (value.List [value.List [value.Symbol "w"]; value.Symbol "undefined"])
    exampleEnv
  = Some (setGlobal "calls" (value.Int64 3) exampleEnv,
          Err (Error ErrNotFound "undefined" "" 0)).
Proof.
  split.
  - pose proof (Analyze_invocation_first_error identityExpander exampleInvoke
                  exampleSprintf defaultAnalyzer 2 (value.Symbol "seven")
                  [value.Int64 1; value.Symbol "undefined";
                   value.Symbol "loop"]
                  exampleEnv eq_refl) as (_ & Hlater & _).
    apply (Hlater [value.Symbol "seven"; value.Int64 1]
             (value.Symbol "undefined") [value.Symbol "loop"]
             exampleEnv exampleEnv exampleEnv (ConstExpr (value.Fn "seven"))
             [ConstExpr (value.Fn "seven"); ConstExpr (value.Int64 1)]).
    + reflexivity.
    + reflexivity.
    + discriminate.
    + repeat (econstructor; [reflexivity |]). constructor.
    + reflexivity.
  - pose proof (Analyze_invocation_first_error identityExpander exampleInvoke
                  exampleSprintf nilAnalyzer 2
                  (value.List [value.Symbol "w"])
                  [value.Symbol "undefined"]
                  exampleEnv eq_refl) as (_ & _ & Hgeneral).
    assert (Hbefore :
              AnalyzeItems
                (Analyze identityExpander exampleInvoke exampleSprintf
                   nilAnalyzer 2)
                (value.List [value.Symbol "w"])
                [value.List [value.Symbol "w"]] nilExpr exampleEnv
                (setGlobal "calls" (value.Int64 2) exampleEnv) nilExpr
                [nilExpr]).
    { apply (AnalyzeItems_cons _ _ _ _ nilExpr nilExpr nilExpr exampleEnv
               (setGlobal "calls" (value.Int64 1) exampleEnv)
               (setGlobal "calls" (value.Int64 2) exampleEnv));
        [vm_compute; reflexivity | vm_compute; reflexivity | constructor]. }
    apply (proj2 (Hgeneral [value.List [value.Symbol "w"]]
                    (value.Symbol "undefined") []
                    (setGlobal "calls" (value.Int64 2) exampleEnv) nilExpr
                    [nilExpr] eq_refl Hbefore)
             (setGlobal "calls" (value.Int64 3) exampleEnv) nilExpr
             (setGlobal "calls" (value.Int64 3) exampleEnv)
             (Error ErrNotFound "undefined" "" 0));
      vm_compute; reflexivity.
Defined.

(** ** Invoke nodes *)

Section InvokeArgs.

Variable evalExpr : Expr -> M value.Any.

Lemma InvokeExpr_args_all (Args : list Expr) (env env' : Env)
    (vs : list value.Any) :
  RunAll evalExpr Args env env' vs ->
  forall acc,
    InvokeExpr_args evalExpr Args acc env = Some (env', Ok (acc ++ vs)%list).
Proof.
  induction 1 as [st | x xs st st1 st' y ys Hx Hxs IH]; intros acc.
  - simpl. unfold ret. now rewrite app_nil_r.
  - simpl. unfold bind. rewrite Hx, IH. now rewrite <- app_assoc.
Qed.

Lemma InvokeExpr_args_abort (before : list Expr) (env env1 : Env)
    (vs : list value.Any) :
  RunAll evalExpr before env env1 vs ->
  forall ae after env2 e acc,
    evalExpr ae env1 = Some (env2, Err e) ->
    InvokeExpr_args evalExpr (before ++ ae :: after) acc env
    = Some (env2, Err e).
Proof.
  induction 1 as [st | x xs st st1 st' y ys Hx Hxs IH];
    intros ae after env2 e acc Hae.
  - simpl. unfold bind. now rewrite Hae.
  - simpl. unfold bind. rewrite Hx. now apply IH.
Qed.

End InvokeArgs.

(** X9.  When the target of an Invoke node evaluates to a value that is not
    invokable, the node fails with the not-invokable error that names the
    type of the value, in the environment the target left: no argument is
    evaluated and no function is invoked. *)
Theorem InvokeExpr_Eval_not_invokable Expand Invoke Sprintf_s ba (n : nat)
    (Name : string) (Target : Expr) (Args : list Expr) (env env1 : Env)
    (val : value.Any) :
  Expr_Eval Expand Invoke Sprintf_s ba n Target env = Some (env1, Ok val) ->
  (forall fn, val <> value.Fn fn) ->
  Expr_Eval Expand Invoke Sprintf_s ba (S n) (InvokeExpr Name Target Args) env
  = Some (env1, Err (Error ErrNotInvokable
                       ("value of type '" +:+ TypeOf val +:+ "' is not invokable")
                       "" 0)).
Proof.
  intros Htarget Hval.
  change (Expr_Eval Expand Invoke Sprintf_s ba (S n)
            (InvokeExpr Name Target Args) env)
    with (InvokeExpr_Eval Invoke (Expr_Eval Expand Invoke Sprintf_s ba n)
            (Env_Eval Expand Invoke Sprintf_s ba n) Name Target Args env).
  unfold InvokeExpr_Eval. unfold bind at 1. rewrite Htarget.
  destruct val; try reflexivity. exfalso. eapply Hval. reflexivity.
Qed.

(** The node of [(1 undefined)] with its target analyzed: the argument, which
    would fail, is not reached. *)
Lemma InvokeExpr_Eval_not_invokable_witness :
  exampleExprEval 2
    (InvokeExpr "one" (ConstExpr (value.Int64 1)) [nilExpr]) exampleEnv
  = Some (exampleEnv,
          Err (Error ErrNotInvokable
                 "value of type 'value.Int64' is not invokable" "" 0)).
Proof.
  apply (InvokeExpr_Eval_not_invokable identityExpander exampleInvoke
           exampleSprintf defaultAnalyzer 1 "one" (ConstExpr (value.Int64 1))
           [nilExpr] exampleEnv exampleEnv (value.Int64 1)).
  - reflexivity.
  - intros fn. discriminate.
Defined.

(** X10.  An Invoke node whose target is invokable evaluates its arguments
    from left to right, each in the environment the previous one left.  When
    all of them evaluate, the function is invoked once with their values in
    that order, and its result, a value or an error, is the result of the
    node.  When one fails, the node fails with that error in the environment
    that argument left: the later arguments are not evaluated and the
    function is not invoked. *)
Theorem InvokeExpr_Eval_arguments_in_order Expand Invoke Sprintf_s ba (n : nat)
    (Name : string) (Target : Expr) (Args : list Expr) (env env1 : Env)
    (fn : value.FnId) :
  let evalExpr := Expr_Eval Expand Invoke Sprintf_s ba n in
  let eval := Env_Eval Expand Invoke Sprintf_s ba n in
  let node := Expr_Eval Expand Invoke Sprintf_s ba (S n)
                (InvokeExpr Name Target Args) in
  evalExpr Target env = Some (env1, Ok (value.Fn fn)) ->
  (forall env2 vs,
      RunAll evalExpr Args env1 env2 vs ->
      node env
      = match Invoke fn eval vs (fst (push (mkFrame Name vs ∅) env2)) with
        | None => None
        | Some (env3, r) => Some (pop env3, r)
        end) /\
  (forall before ae after env2 env3 vs e,
      Args = (before ++ ae :: after)%list ->
      RunAll evalExpr before env1 env2 vs ->
      evalExpr ae env2 = Some (env3, Err e) ->
      node env = Some (env3, Err e)).
Proof.
  intros evalExpr eval node Htarget.
  assert (forall env', node env'
                       = InvokeExpr_Eval Invoke evalExpr eval Name Target Args env')
    as Hnode by reflexivity.
  split.
  - intros env2 vs Hall. rewrite Hnode.
    apply (InvokeExpr_Eval_invokes Invoke evalExpr eval Name Target Args
             env env1 env2 fn vs Htarget).
    exact (InvokeExpr_args_all evalExpr Args env1 env2 vs Hall []).
  - intros before ae after env2 env3 vs e -> Hall Hae. rewrite Hnode.
    unfold InvokeExpr_Eval. unfold bind at 1. rewrite Htarget.
    unfold bind.
    now rewrite (InvokeExpr_args_abort evalExpr before env1 env2 vs Hall
                   ae after env3 e []).
Qed.

Lemma InvokeExpr_Eval_arguments_in_order_witness :
  exampleExprEval 2
    (InvokeExpr "seven" (ConstExpr (value.Fn "seven"))
       [ConstExpr (value.Int64 1); ConstExpr (value.Int64 2)]) exampleEnv
  = match exampleInvoke "seven" (exampleEval 1) [value.Int64 1; value.Int64 2]
            (fst (push (mkFrame "seven" [value.Int64 1; value.Int64 2] ∅)
                    exampleEnv)) with
    | None => None
    | Some (env3, r) => Some (pop env3, r)
    end.
Proof.
  pose proof (InvokeExpr_Eval_arguments_in_order identityExpander exampleInvoke
                exampleSprintf defaultAnalyzer 1 "seven"
                (ConstExpr (value.Fn "seven"))
                [ConstExpr (value.Int64 1); ConstExpr (value.Int64 2)]
                exampleEnv exampleEnv "seven" eq_refl) as (Hall & _).
  apply (Hall exampleEnv [value.Int64 1; value.Int64 2]).
  repeat (econstructor; [reflexivity |]). constructor.
Defined.

(** X11.  Below the depth bound, the invoked function runs with a new frame on
    top of the call stack, holding the name of the node, the argument values
    and an empty local scope; when a function that leaves the stack as it
    found it returns, with a value or with an error, the frame is popped and
    the call stack is the one from before the invocation. *)
Theorem InvokeExpr_Eval_restores_stack Expand Invoke Sprintf_s ba (n : nat)
    (Name : string) (Target : Expr) (Args : list Expr)
    (env env1 env2 env3 : Env) (fn : value.FnId) (vs : list value.Any)
    (r : Result value.Any) :
  let evalExpr := Expr_Eval Expand Invoke Sprintf_s ba n in
  let eval := Env_Eval Expand Invoke Sprintf_s ba n in
  let frame := mkFrame Name vs ∅ in
  evalExpr Target env = Some (env1, Ok (value.Fn fn)) ->
  RunAll evalExpr Args env1 env2 vs ->
  (Z.of_nat (length (stack env2)) < maxDepth env2)%Z ->
  Invoke fn eval vs
    (mkEnv (globals env2) (frame :: stack env2) (maxDepth env2) (spawned env2))
  = Some (env3, r) ->
  stack env3 = frame :: stack env2 ->
  exists env',
    Expr_Eval Expand Invoke Sprintf_s ba (S n) (InvokeExpr Name Target Args) env
    = Some (env', r) /\
    stack env' = stack env2 /\
    globals env' = globals env3.
Proof.
  intros evalExpr eval frame Htarget Hall Hdepth Hinvoke Hstack.
  exists (pop env3). split; [| split].
  - change (Expr_Eval Expand Invoke Sprintf_s ba (S n)
              (InvokeExpr Name Target Args) env)
      with (InvokeExpr_Eval Invoke evalExpr eval Name Target Args env).
    rewrite (InvokeExpr_Eval_invokes Invoke evalExpr eval Name Target Args
               env env1 env2 fn vs Htarget
               (InvokeExpr_args_all evalExpr Args env1 env2 vs Hall [])).
    unfold push.
    destruct (Z.leb_spec (maxDepth env2) (Z.of_nat (length (stack env2))));
      [lia |].
    simpl. fold frame. now rewrite Hinvoke.
  - unfold pop. simpl. now rewrite Hstack.
  - reflexivity.
Qed.

Lemma InvokeExpr_Eval_restores_stack_witness :
  exists env',
    exampleExprEval 2
      (InvokeExpr "seven" (ConstExpr (value.Fn "seven"))
         [ConstExpr (value.Int64 1)]) exampleEnv
    = Some (env', Ok (value.Int64 7)) /\
    stack env' = stack exampleEnv /\
    globals env' = globals exampleEnv.
Proof.
  apply (InvokeExpr_Eval_restores_stack identityExpander exampleInvoke
           exampleSprintf defaultAnalyzer 1 "seven"
           (ConstExpr (value.Fn "seven")) [ConstExpr (value.Int64 1)]
           exampleEnv exampleEnv exampleEnv
           (mkEnv exampleGlobals [mkFrame "seven" [value.Int64 1] ∅] 10000 [])
           "seven" [value.Int64 1] (Ok (value.Int64 7))).
  - reflexivity.
  - repeat (econstructor; [reflexivity |]). constructor.
  - simpl. lia.
  - reflexivity.
  - reflexivity.
Defined.

(** ** Invocation forms through the pipeline *)

Section ConstantArguments.

Variable Invoke :
  value.FnId -> (value.Any -> M value.Any) -> list value.Any -> M value.Any.
Variable Sprintf_s : Expr -> string.
Variable ba : BasicAnalyzer.

Lemma RunAll_Analyze_constants (n : nat) (consts : list value.Any) (env : Env) :
  List.Forall selfEvaluating consts ->
  RunAll (Analyze identityExpander Invoke Sprintf_s ba (S n)) consts env env
    (map ConstExpr consts).
Proof.
  induction 1 as [| c consts Hc Hconsts IH]; simpl.
  - constructor.
  - econstructor; [| exact IH].
    now apply Analyze_selfEvaluating.
Qed.

Lemma RunAll_Expr_Eval_constants (n : nat) (vs : list value.Any) (env : Env) :
  RunAll (Expr_Eval identityExpander Invoke Sprintf_s ba (S n))
    (map ConstExpr vs) env env vs.
Proof.
  induction vs as [| v vs IH]; simpl.
  - constructor.
  - econstructor; [reflexivity | exact IH].
Qed.

End ConstantArguments.

(** X12.  The form [(f c1 ... cn)], where [f] is bound to a host function and
    the [ci] are constants, invokes the function once, and the function
    itself is the first of the arguments it receives: [f c1 ... cn], not
    [c1 ... cn].  The result of the form is the result of that call. *)
Theorem invocation_passes_target_as_first_argument Invoke Sprintf_s ba
    (n : nat) (f : string) (fn : value.FnId) (consts : list value.Any)
    (env : Env) :
  let args := value.Fn fn :: consts in
  let frame := mkFrame (Sprintf_s (ConstExpr (value.Fn fn))) args ∅ in
  specialOf ba (value.Symbol f) = None ->
  resolve f env = value.Fn fn ->
  List.Forall selfEvaluating consts ->
  Env_Eval identityExpander Invoke Sprintf_s ba (3 + n)
    (value.List (value.Symbol f :: consts)) env
  = match Invoke fn (Env_Eval identityExpander Invoke Sprintf_s ba (1 + n))
            args (fst (push frame env)) with
    | None => None
    | Some (env3, r) => Some (pop env3, r)
    end.
Proof.
  intros args frame Hspecial Hresolve Hconsts.
  assert (Analyze identityExpander Invoke Sprintf_s ba (S n)
            (value.Symbol f) env
          = Some (env, Ok (ConstExpr (value.Fn fn)))) as Hsym.
  { rewrite Analyze_symbol, Hresolve. reflexivity. }
  change (3 + n)%nat with (S (S (S n))).
  rewrite Env_Eval_step.
  rewrite (Analyze_list_invoke identityExpander Invoke Sprintf_s ba (S n)
             (value.Symbol f) consts env env env (ConstExpr (value.Fn fn))
             (ConstExpr (value.Fn fn) :: map ConstExpr consts) Hspecial Hsym).
  - change (Expr_Eval identityExpander Invoke Sprintf_s ba (S (S n))
              (InvokeExpr (Sprintf_s (ConstExpr (value.Fn fn)))
                 (ConstExpr (value.Fn fn))
                 (ConstExpr (value.Fn fn) :: map ConstExpr consts)) env)
      with (InvokeExpr_Eval Invoke
              (Expr_Eval identityExpander Invoke Sprintf_s ba (S n))
              (Env_Eval identityExpander Invoke Sprintf_s ba (S n))
              (Sprintf_s (ConstExpr (value.Fn fn)))
              (ConstExpr (value.Fn fn))
              (ConstExpr (value.Fn fn) :: map ConstExpr consts) env).
    apply (InvokeExpr_Eval_invokes Invoke _ _ _ _ _ env env env fn args).
    + reflexivity.
    + apply (InvokeExpr_args_all _ _ env env args
               (RunAll_Expr_Eval_constants Invoke Sprintf_s ba n args env) []).
  - discriminate.
  - econstructor; [exact Hsym |].
    now apply RunAll_Analyze_constants.
Qed.

Lemma invocation_passes_target_as_first_argument_witness :
  exampleEval 3 (value.List [value.Symbol "seven"; value.Int64 1]) exampleEnv
  = match exampleInvoke "seven" (exampleEval 1)
            [value.Fn "seven"; value.Int64 1]
            (fst (push (mkFrame "expr" [value.Fn "seven"; value.Int64 1] ∅)
                    exampleEnv)) with
    | None => None
    | Some (env3, r) => Some (pop env3, r)
    end.
Proof.
  apply (invocation_passes_target_as_first_argument exampleInvoke
           exampleSprintf defaultAnalyzer 0 "seven" "seven" [value.Int64 1]
           exampleEnv).
  - reflexivity.
  - reflexivity.
  - repeat constructor.
Defined.

(** X13.  With the table of [WithAnalyzer(nil)], the form [(go form)] returns
    the nil interface value at once and starts one goroutine for [form] as it
    was written: [form] is not analyzed or evaluated by the call, so its
    errors and its effects on the global store are not the caller's. *)
Theorem go_form_is_not_evaluated Invoke Sprintf_s (n : nat)
    (form : value.Any) (env : Env) :
  form <> value.nilAny ->
  Env_Eval identityExpander Invoke Sprintf_s defaultAnalyzer (2 + n)
    (value.List [value.Symbol "go"; form]) env
  = Some (mkEnv (globals env) (stack env) (maxDepth env)
            (spawned env ++ [mkGo [] (maxDepth env) form])%list,
          Ok value.nilAny).
Proof.
  intros Hform. destruct form; try reflexivity. contradiction.
Qed.

Lemma go_form_is_not_evaluated_witness :
  exampleEval 2
    (value.List [value.Symbol "go"; value.Symbol "undefined"]) exampleEnv
  = Some (mkEnv exampleGlobals [] 10000
            [mkGo [] 10000 (value.Symbol "undefined")],
          Ok value.nilAny).
Proof.
  apply (go_form_is_not_evaluated exampleInvoke exampleSprintf 0
           (value.Symbol "undefined") exampleEnv).
  discriminate.
Defined.

(** ** Do nodes *)

(** X14.  A Do node that evaluates never returns the nil interface value:
    where its last form gave none, or where it has no form, the result is
    Nil. *)
Theorem DoExpr_Eval_never_nil (eval : value.Any -> M value.Any)
    (Forms : list value.Any) (env env' : Env) (r : value.Any) :
  DoExpr_Eval eval Forms env = Some (env', Ok r) ->
  r <> value.nilAny.
Proof.
  unfold DoExpr_Eval, bind.
  destruct (DoExpr_loop eval Forms value.nilAny env) as [[env1 [res | e]] |];
    try discriminate.
  destruct res; unfold ret; intros H; inversion H; discriminate.
Qed.

Lemma DoExpr_Eval_never_nil_witness : value.Nil <> value.nilAny.
Proof.
  apply (DoExpr_Eval_never_nil (exampleEval 2) [value.nilAny] exampleEnv
           exampleEnv value.Nil).
  reflexivity.
Defined.

(** * Further properties of the reader macros *)

Lemma input_setInput (l : list rune) (rd : reader.Rd) :
  reader.input (reader.setInput l rd) = l.
Proof. reflexivity. Qed.

Lemma setInput_setInput (l l' : list rune) (rd : reader.Rd) :
  reader.setInput l (reader.setInput l' rd) = reader.setInput l rd.
Proof. reflexivity. Qed.

Lemma NextRune_cons (r : rune) (l : list rune) (rd : reader.Rd) :
  reader.input rd = r :: l ->
  reader.NextRune rd = Some (reader.setInput l rd, Ok r).
Proof. intros H. unfold reader.NextRune. now rewrite H. Qed.

Lemma NextRune_nil (rd : reader.Rd) :
  reader.input rd = [] -> reader.NextRune rd = Some (rd, Err io_EOF).
Proof. intros H. unfold reader.NextRune. now rewrite H. Qed.

(** ** Comments *)

Lemma readComment_loop_line (body : list rune) :
  List.Forall (fun r => r <> 10%Z) body ->
  forall m rd l,
    reader.input rd = (body ++ l)%list ->
    exists rd',
      reader.readComment_loop reader.Rd reader.NextRune (length body + m) rd
      = reader.readComment_loop reader.Rd reader.NextRune m rd' /\
      reader.input rd' = l.
Proof.
  induction 1 as [| r body Hr Hbody IH]; intros m rd l Hin.
  - exists rd. split; [reflexivity | exact Hin].
  - destruct (IH m (reader.setInput (body ++ l) rd) l (input_setInput _ _))
      as (rd' & Hloop & Hrd').
    exists rd'. split; [| exact Hrd'].
    simpl. unfold bind at 1.
    rewrite (NextRune_cons r (body ++ l) rd Hin).
    destruct (Z.eqb_spec r 10) as [E | _]; [contradiction | exact Hloop].
Qed.

(** X15.  A comment runs to the end of its line: up to and including the
    first line feed the input is consumed, and the macro ends with the skip
    signal, never with a value.  A comment that the input ends before any
    line feed consumes the rest of the input and ends with [io.EOF]
    instead. *)
Theorem readComment_consumes_line (init : rune) (rd : reader.Rd) :
  (forall body rest,
      reader.input rd = (body ++ 10%Z :: rest)%list ->
      List.Forall (fun r => r <> 10%Z) body ->
      exists rd',
        reader.readComment init rd = Some (rd', Err ErrSkip) /\
        reader.input rd' = rest) /\
  (List.Forall (fun r => r <> 10%Z) (reader.input rd) ->
   exists rd',
     reader.readComment init rd = Some (rd', Err io_EOF) /\
     reader.input rd' = []).
Proof.
  split.
  - intros body rest Hin Hbody. unfold reader.readComment.
    replace (S (length (reader.input rd)))
      with (length body + S (S (length rest)))%nat
      by (rewrite Hin, length_app; simpl; lia).
    destruct (readComment_loop_line body Hbody (S (S (length rest))) rd
                (10%Z :: rest) Hin) as (rd1 & Hloop & Hrd1).
    exists (reader.setInput rest rd1). split; [| reflexivity].
    eapply eq_trans; [exact Hloop |].
    simpl. unfold bind. now rewrite (NextRune_cons 10%Z rest rd1 Hrd1).
  - intros Hbody. unfold reader.readComment.
    replace (S (length (reader.input rd)))
      with (length (reader.input rd) + 1)%nat by lia.
    destruct (readComment_loop_line (reader.input rd) Hbody 1%nat rd []
                (eq_sym (app_nil_r _))) as (rd1 & Hloop & Hrd1).
    exists rd1. split; [| exact Hrd1].
    eapply eq_trans; [exact Hloop |].
    simpl. unfold bind. now rewrite (NextRune_nil rd1 Hrd1).
Qed.

Lemma readComment_consumes_line_witness :
  (exists rd',
      reader.readComment 59 (reader.exampleReader (" c" +:+ bytes [10%nat] +:+ "x"))
      = Some (rd', Err ErrSkip) /\
      reader.input rd' = [120%Z]) /\
  (exists rd',
      reader.readComment 59 (reader.exampleReader " c")
      = Some (rd', Err io_EOF) /\
      reader.input rd' = []).
Proof.
  split.
  - apply (proj1 (readComment_consumes_line 59
                    (reader.exampleReader (" c" +:+ bytes [10%nat] +:+ "x")))
             [32; 99]%Z [120%Z]).
    + reflexivity.
    + repeat constructor; discriminate.
  - apply (proj2 (readComment_consumes_line 59 (reader.exampleReader " c"))).
    repeat constructor; discriminate.
Defined.

(** ** Strings *)

Lemma encodeAll_app (a b : list rune) :
  reader.encodeAll (a ++ b) = reader.encodeAll a +:+ reader.encodeAll b.
Proof.
  induction a as [| r a IH]; [reflexivity |].
  change (reader.encodeAll ((r :: a) ++ b))
    with (EncodeRune r +:+ reader.encodeAll (a ++ b)).
  change (reader.encodeAll (r :: a))
    with (EncodeRune r +:+ reader.encodeAll a).
  now rewrite IH, app_assoc_string.
Qed.

Section ReadString.

Variable getEscape : rune -> Result rune.

Let loop := reader.readString_loop reader.Rd reader.NextRune getEscape.
Let next := reader.readString_next reader.Rd reader.NextRune.

Lemma readString_next_cons (r : rune) (l : list rune) (rd : reader.Rd) :
  reader.input rd = r :: l ->
  next rd = Some (reader.setInput l rd, Ok r).
Proof.
  intros H. unfold next, reader.readString_next.
  now rewrite (NextRune_cons r l rd H).
Qed.

Lemma readString_next_nil (rd : reader.Rd) :
  reader.input rd = [] ->
  next rd = Some (rd, Err (Error ErrEOF "" "string" 0)).
Proof.
  intros H. unfold next, reader.readString_next.
  now rewrite (NextRune_nil rd H).
Qed.

Lemma readString_loop_step (n : nat) (b : string) (rd : reader.Rd) :
  loop (S n) b rd
  = match next rd with
    | None => None
    | Some (rd1, Err e) => Some (rd1, Err e)
    | Some (rd1, Ok r) =>
        if (r =? 92)%Z then
          match next rd1 with
          | None => None
          | Some (rd2, Err e) => Some (rd2, Err e)
          | Some (rd2, Ok r2) =>
              match getEscape r2 with
              | Err e => Some (rd2, Err e)
              | Ok escaped => loop n (b +:+ EncodeRune escaped) rd2
              end
          end
        else if (r =? 34)%Z then Some (rd1, Ok (value.String b))
        else loop n (b +:+ EncodeRune r) rd1
    end.
Proof.
  unfold loop, next. simpl. unfold bind at 1.
  destruct (reader.readString_next _ _ rd) as [[rd1 [r | e]] |];
    try reflexivity.
  destruct (r =? 92)%Z; [| destruct (r =? 34)%Z; reflexivity].
  unfold bind at 1.
  destruct (reader.readString_next _ _ rd1) as [[rd2 [r2 | e]] |];
    reflexivity.
Qed.

Lemma readString_loop_plain (body : list rune) :
  List.Forall (fun r => r <> 34%Z /\ r <> 92%Z) body ->
  forall m b rd l,
    reader.input rd = (body ++ l)%list ->
    exists rd',
      loop (length body + m) b rd = loop m (b +:+ reader.encodeAll body) rd' /\
      reader.input rd' = l.
Proof.
  induction 1 as [| r body [Hq Hb] Hbody IH]; intros m b rd l Hin.
  - exists rd. split; [| exact Hin].
    change (reader.encodeAll []) with "". now rewrite app_empty_r.
  - destruct (IH m (b +:+ EncodeRune r)
                (reader.setInput (body ++ l) rd) l (input_setInput _ _))
      as (rd' & Hloop & Hrd').
    exists rd'. split; [| exact Hrd'].
    change (length (r :: body) + m)%nat with (S (length body + m)).
    rewrite readString_loop_step.
    rewrite (readString_next_cons r (body ++ l) rd Hin).
    destruct (Z.eqb_spec r 92) as [E | _]; [contradiction |].
    destruct (Z.eqb_spec r 34) as [E | _]; [contradiction |].
    eapply eq_trans; [exact Hloop |].
    change (reader.encodeAll (r :: body))
      with (EncodeRune r +:+ reader.encodeAll body).
    now rewrite app_assoc_string.
Qed.

Lemma readString_fuel (rd : reader.Rd) (init : rune) :
  reader.readString getEscape init rd
  = loop (S (length (reader.input rd))) "" rd.
Proof. reflexivity. Qed.

Lemma readString_closing (body rest : list rune) (k : nat) (b : string)
    (rd : reader.Rd) :
  List.Forall (fun r => r <> 34%Z /\ r <> 92%Z) body ->
  reader.input rd = (body ++ 34%Z :: rest)%list ->
  exists rd',
    loop (length body + S k) b rd
    = Some (rd', Ok (value.String (b +:+ reader.encodeAll body))) /\
    reader.input rd' = rest.
Proof.
  intros Hbody Hin.
  destruct (readString_loop_plain body Hbody (S k) b rd (34%Z :: rest) Hin)
    as (rd1 & Hloop & Hrd1).
  exists (reader.setInput rest rd1). split; [| reflexivity].
  eapply eq_trans; [exact Hloop |].
  rewrite readString_loop_step.
  now rewrite (readString_next_cons 34%Z rest rd1 Hrd1).
Qed.

End ReadString.

(** X16.  A string literal with no backslash is read up to its closing quote:
    the value is the text between the quotes, the closing quote is consumed
    and what follows it stays in the input; the escape table is not
    consulted. *)
Theorem readString_reads_to_closing_quote (getEscape : rune -> Result rune)
    (init : rune) (rd : reader.Rd) (body rest : list rune) :
  reader.input rd = (body ++ 34%Z :: rest)%list ->
  List.Forall (fun r => r <> 34%Z /\ r <> 92%Z) body ->
  exists rd',
    reader.readString getEscape init rd
    = Some (rd', Ok (value.String (reader.encodeAll body))) /\
    reader.input rd' = rest.
Proof.
  intros Hin Hbody. rewrite readString_fuel.
  replace (S (length (reader.input rd)))
    with (length body + S (S (length rest)))%nat
    by (rewrite Hin, length_app; simpl; lia).
  exact (readString_closing getEscape body rest _ "" rd Hbody Hin).
Qed.

(** The reader test [SimpleString], after the opening quote. *)
Lemma readString_reads_to_closing_quote_witness :
  exists rd',
    reader.readString (fun r => Ok r) 34
      (reader.setInput [104; 101; 108; 108; 111; 34; 32; 120]%Z
         (reader.exampleReader ""))
    = Some (rd', Ok (value.String "hello")) /\
    reader.input rd' = [32; 120]%Z.
Proof.
  apply (readString_reads_to_closing_quote (fun r => Ok r) 34
           (reader.setInput [104; 101; 108; 108; 111; 34; 32; 120]%Z
       (reader.exampleReader ""))
           [104; 101; 108; 108; 111]%Z [32; 120]%Z).
  - reflexivity.
  - repeat constructor; discriminate.
Defined.

(** X17.  A string literal that is not closed fails with the end-of-input
    error of form "string", having consumed the whole input: both when the
    input ends inside the text and when it ends right after a backslash. *)
Theorem readString_unterminated (getEscape : rune -> Result rune)
    (init : rune) (rd : reader.Rd) (body tail : list rune) :
  reader.input rd = (body ++ tail)%list ->
  List.Forall (fun r => r <> 34%Z /\ r <> 92%Z) body ->
  tail = [] \/ tail = [92%Z] ->
  exists rd',
    reader.readString getEscape init rd
    = Some (rd', Err (Error ErrEOF "" "string" 0)) /\
    reader.input rd' = [].
Proof.
  intros Hin Hbody Htail. rewrite readString_fuel.
  replace (S (length (reader.input rd)))
    with (length body + S (length tail))%nat
    by (rewrite Hin, length_app; lia).
  destruct (readString_loop_plain getEscape body Hbody (S (length tail)) ""
              rd tail Hin) as (rd1 & Hloop & Hrd1).
  destruct Htail as [-> | ->].
  - exists rd1. split; [| exact Hrd1].
    eapply eq_trans; [exact Hloop |].
    rewrite readString_loop_step.
    now rewrite (readString_next_nil rd1 Hrd1).
  - exists (reader.setInput [] rd1). split; [| reflexivity].
    eapply eq_trans; [exact Hloop |].
    rewrite readString_loop_step.
    rewrite (readString_next_cons 92%Z [] rd1 Hrd1).
    change (92 =? 92)%Z with true. cbv iota.
    now rewrite (readString_next_nil (reader.setInput [] rd1)
                   (input_setInput _ _)).
Qed.

(** The reader tests [UnexpectedEOF] and [EscapeEOF], after the opening
    quote: the texts [hello] and [hello\]. *)
Lemma readString_unterminated_witness :
  (exists rd',
      reader.readString (fun r => Ok r) 34 (reader.exampleReader "hello")
      = Some (rd', Err (Error ErrEOF "" "string" 0)) /\
      reader.input rd' = []) /\
  (exists rd',
      reader.readString (fun r => Ok r) 34
        (reader.setInput [104; 101; 108; 108; 111; 92]%Z
           (reader.exampleReader ""))
      = Some (rd', Err (Error ErrEOF "" "string" 0)) /\
      reader.input rd' = []).
Proof.
  split.
  - apply (readString_unterminated (fun r => Ok r) 34
             (reader.exampleReader "hello")
             [104; 101; 108; 108; 111]%Z []).
    + reflexivity.
    + repeat constructor; discriminate.
    + left; reflexivity.
  - apply (readString_unterminated (fun r => Ok r) 34
             (reader.setInput [104; 101; 108; 108; 111; 92]%Z
                (reader.exampleReader ""))
             [104; 101; 108; 108; 111]%Z [92]%Z).
    + reflexivity.
    + repeat constructor; discriminate.
    + right; reflexivity.
Defined.

(** X18.  After a backslash the next rune is looked up in the escape table
    and never closes or re-escapes the string, whatever it is: the looked-up
    rune is appended and reading goes on to the closing quote.  When the
    table rejects the rune, its error is the result and reading stops right
    after the rejected rune. *)
Theorem readString_escape (getEscape : rune -> Result rune) (init : rune)
    (rd : reader.Rd) (body1 tail : list rune) (r2 : rune) :
  reader.input rd = (body1 ++ 92%Z :: r2 :: tail)%list ->
  List.Forall (fun r => r <> 34%Z /\ r <> 92%Z) body1 ->
  (forall e,
      getEscape r2 = Err e ->
      exists rd',
        reader.readString getEscape init rd = Some (rd', Err e) /\
        reader.input rd' = tail) /\
  (forall c body2 rest,
      getEscape r2 = Ok c ->
      tail = (body2 ++ 34%Z :: rest)%list ->
      List.Forall (fun r => r <> 34%Z /\ r <> 92%Z) body2 ->
      exists rd',
        reader.readString getEscape init rd
        = Some (rd', Ok (value.String
                           (reader.encodeAll (body1 ++ c :: body2)))) /\
        reader.input rd' = rest).
Proof.
  intros Hin Hbody1. split.
  - intros e He. rewrite readString_fuel.
    replace (S (length (reader.input rd)))
      with (length body1 + S (S (S (length tail))))%nat
      by (rewrite Hin, length_app; simpl; lia).
    destruct (readString_loop_plain getEscape body1 Hbody1
                (S (S (S (length tail)))) "" rd _ Hin)
      as (rd1 & Hloop & Hrd1).
    exists (reader.setInput tail (reader.setInput (r2 :: tail) rd1)).
    split; [| reflexivity].
    eapply eq_trans; [exact Hloop |].
    rewrite readString_loop_step.
    rewrite (readString_next_cons 92%Z (r2 :: tail) rd1 Hrd1).
    change (92 =? 92)%Z with true. cbv iota.
    rewrite (readString_next_cons r2 tail _ (input_setInput _ _)).
    now rewrite He.
  - intros c body2 rest Hc -> Hbody2. rewrite readString_fuel.
    replace (S (length (reader.input rd)))
      with (length body1 + S (length body2 + S (S (S (length rest)))))%nat
      by (rewrite Hin, length_app; simpl; rewrite length_app; simpl; lia).
    destruct (readString_loop_plain getEscape body1 Hbody1
                (S (length body2 + S (S (S (length rest))))) "" rd _ Hin)
      as (rd1 & Hloop & Hrd1).
    destruct (readString_closing getEscape body2 rest (S (S (length rest)))
                (("" +:+ reader.encodeAll body1) +:+ EncodeRune c)
                (reader.setInput (body2 ++ 34%Z :: rest)
                   (reader.setInput (r2 :: body2 ++ 34%Z :: rest) rd1))
                Hbody2 (input_setInput _ _))
      as (rd2 & Hclose & Hrd2).
    exists rd2. split; [| exact Hrd2].
    eapply eq_trans; [exact Hloop |].
    rewrite readString_loop_step.
    rewrite (readString_next_cons 92%Z _ rd1 Hrd1).
    change (92 =? 92)%Z with true. cbv iota.
    rewrite (readString_next_cons r2 _ _ (input_setInput _ _)).
    rewrite Hc.
    eapply eq_trans; [exact Hclose |].
    rewrite encodeAll_app.
    change (reader.encodeAll (c :: body2))
      with (EncodeRune c +:+ reader.encodeAll body2).
    now rewrite app_assoc_string.
Qed.

(** A text with an escaped quote between [a] and [b], where the table maps
    the quote to itself, and a text with an escaped [z], which the table
    rejects. *)
Lemma readString_escape_witness :
  (exists rd',
      reader.readString
        (fun r => if (r =? 122)%Z then Err (errors_New "invalid escape")
                  else Ok r) 34
        (reader.setInput [97; 92; 122; 98; 34]%Z (reader.exampleReader ""))
      = Some (rd', Err (errors_New "invalid escape")) /\
      reader.input rd' = [98; 34]%Z) /\
  (exists rd',
      reader.readString
        (fun r => if (r =? 122)%Z then Err (errors_New "invalid escape")
                  else Ok r) 34
        (reader.setInput [97; 92; 34; 98; 34; 32; 120]%Z
           (reader.exampleReader ""))
      = Some (rd', Ok (value.String
                         (reader.encodeAll [97; 34; 98]%Z))) /\
      reader.input rd' = [32; 120]%Z).
Proof.
  split.
  - apply (proj1 (readString_escape _ 34
                    (reader.setInput [97; 92; 122; 98; 34]%Z
                       (reader.exampleReader ""))
                    [97]%Z [98; 34]%Z 122%Z eq_refl
                    ltac:(repeat constructor; discriminate))
             (errors_New "invalid escape") eq_refl).
  - apply (proj2 (readString_escape _ 34
                    (reader.setInput [97; 92; 34; 98; 34; 32; 120]%Z
                       (reader.exampleReader ""))
                    [97]%Z [98; 34; 32; 120]%Z 34%Z eq_refl
                    ltac:(repeat constructor; discriminate))
             34%Z [98]%Z [32; 120]%Z eq_refl eq_refl
             ltac:(repeat constructor; discriminate)).
Defined.

(** ** Characters *)

(** *** UTF-8: decoding undoes encoding *)

Lemma lor_shiftl_small (a k l : Z) :
  0 <= k -> 0 <= l < 2 ^ k -> Z.lor (Z.shiftl a k) l = a * 2 ^ k + l.
Proof.
  intros Hk Hl. rewrite Z.shiftl_mul_pow2 by exact Hk.
  symmetry. apply Z.add_nocarry_lor.
  apply Z.bits_inj'. intros n Hn.
  rewrite Z.land_spec, Z.bits_0.
  destruct (Z.ltb_spec n k) as [Hlt | Hge].
  - rewrite Z.mul_pow2_bits_low by lia. reflexivity.
  - destruct (Z.eq_dec l 0) as [-> | Hl0].
    + now rewrite Z.bits_0, andb_false_r.
    + assert (Hlog : Z.log2 l < n)
        by (apply Z.lt_le_trans with k;
            [apply Z.log2_lt_pow2; lia | exact Hge]).
      rewrite (Z.bits_above_log2 l n (proj1 Hl) Hlog).
      now rewrite andb_false_r.
Qed.

Lemma byteZ_ascii (v : Z) :
  0 <= v < 256 -> byteZ (ascii_of_nat (Z.to_nat v)) = v.
Proof.
  intros Hv. unfold byteZ.
  rewrite nat_ascii_embedding by lia. lia.
Qed.

Lemma lor_const (c a k x : Z) :
  c = a * 2 ^ k -> 0 <= k -> 0 <= x < 2 ^ k -> Z.lor c x = c + x.
Proof.
  intros -> Hk Hx. rewrite <- Z.shiftl_mul_pow2 by exact Hk.
  rewrite lor_shiftl_small by assumption. now rewrite Z.shiftl_mul_pow2.
Qed.

Lemma land_low (x k : Z) (m : Z) :
  0 <= k -> m = 2 ^ k - 1 -> Z.land x m = x mod 2 ^ k.
Proof.
  intros Hk ->. rewrite <- Z.land_ones by exact Hk.
  now rewrite Z.ones_equiv, Z.sub_1_r.
Qed.

Lemma cont_byte (x : Z) : Z.lor 128 (Z.land x 63) = 128 + x mod 64.
Proof.
  rewrite (land_low x 6 63) by (reflexivity || lia).
  apply (lor_const 128 2 6); [reflexivity | lia |].
  change (2 ^ 6) with 64. apply Z.mod_pos_bound. lia.
Qed.

Lemma contBits_ascii (x : Z) :
  0 <= x < 64 -> contBits (ascii_of_nat (Z.to_nat (128 + x))) = x.
Proof.
  intros Hx. unfold contBits. rewrite byteZ_ascii by lia.
  rewrite (land_low _ 6 63) by (reflexivity || lia).
  change (2 ^ 6) with 64. Z.div_mod_to_equations. lia.
Qed.

Lemma inRange_ascii (lo hi v : Z) :
  0 <= v < 256 ->
  inRange lo hi (ascii_of_nat (Z.to_nat v)) = ((lo <=? v)%Z && (v <=? hi)%Z).
Proof.
  intros Hv. unfold inRange. now rewrite byteZ_ascii.
Qed.


Ltac decide_tests :=
  repeat match goal with
         | |- context [(?a =? ?b)%Z] => destruct (Z.eqb_spec a b); try lia
         | |- context [(?a <? ?b)%Z] => destruct (Z.ltb_spec a b); try lia
         | |- context [(?a <=? ?b)%Z] => destruct (Z.leb_spec a b); try lia
         end.

(** Decoding the encoding of a code point gives the code point back and
    leaves the text after it. *)
Lemma DecodeRune_EncodeRune (r : rune) (s : string) :
  reader.validRune r ->
  DecodeRune (EncodeRune r +:+ s) = Some (r, s).
Proof.
  intros Hr. unfold EncodeRune.
  destruct (Z.ltb_spec r 128) as [H1 | H1].
  - assert (0 <= r) by (destruct Hr; lia).
    unfold bytes; simpl fold_right. 
    change (String ?a "" +:+ s) with (String a s).
    unfold DecodeRune. rewrite byteZ_ascii by lia.
    destruct (Z.ltb_spec r 128); [reflexivity | lia].
  - destruct (Z.ltb_spec r 2048) as [H2 | H2].
    + rewrite Z.shiftr_div_pow2 by lia. change (2 ^ 6) with 64.
      rewrite cont_byte.
      rewrite (lor_const 192 3 6 (r / 64)) by
        (reflexivity || lia || (change (2 ^ 6) with 64; Z.div_mod_to_equations; lia)).
      assert (Hh : 2 <= r / 64 < 32) by (Z.div_mod_to_equations; lia).
      assert (Hl : 0 <= r mod 64 < 64) by (Z.div_mod_to_equations; lia).
      assert (Hrl : r = 64 * (r / 64) + r mod 64) by (Z.div_mod_to_equations; lia).
      revert Hh Hl Hrl. generalize (r / 64) (r mod 64). intros h l Hh Hl Hrl.
      unfold bytes; simpl fold_right.
      change (String ?a (String ?b "") +:+ s) with (String a (String b s)).
      unfold DecodeRune.
      rewrite (byteZ_ascii (192 + h)) by lia.
      rewrite (contBits_ascii l) by lia.
      rewrite (land_low (192 + h) 5 31) by (reflexivity || lia).
      rewrite (lor_shiftl_small _ 6 l) by (change (2 ^ 6) with 64; lia).
      change (2 ^ 5) with 32. change (2 ^ 6) with 64.
      replace ((192 + h) mod 32) with h by (Z.div_mod_to_equations; lia).
      decide_tests; rewrite !inRange_ascii by lia; decide_tests; simpl;
        f_equal; f_equal; lia.
    + destruct (Z.ltb_spec r 65536) as [H3 | H3].
      * rewrite !Z.shiftr_div_pow2 by lia. change (2 ^ 6) with 64.
        change (2 ^ 12) with 4096.
        rewrite !cont_byte.
        rewrite (lor_const 224 14 4 (r / 4096)) by
          (reflexivity || lia || (change (2 ^ 4) with 16; Z.div_mod_to_equations; lia)).
        assert (Hh : 0 <= r / 4096 < 16) by (Z.div_mod_to_equations; lia).
        assert (Hm : 0 <= (r / 64) mod 64 < 64) by (Z.div_mod_to_equations; lia).
        assert (Hl : 0 <= r mod 64 < 64) by (Z.div_mod_to_equations; lia).
        assert (Hrl : r = 4096 * (r / 4096) + 64 * ((r / 64) mod 64) + r mod 64)
          by (Z.div_mod_to_equations; lia).
        revert Hh Hm Hl Hrl.
        generalize (r / 4096) ((r / 64) mod 64) (r mod 64).
        intros h m l Hh Hm Hl Hrl.
        unfold bytes; simpl fold_right.
        change (String ?a (String ?b (String ?c "")) +:+ s)
          with (String a (String b (String c s))).
        unfold DecodeRune.
        rewrite (byteZ_ascii (224 + h)) by lia.
        rewrite (contBits_ascii m), (contBits_ascii l) by lia.
        rewrite (land_low (224 + h) 4 15) by (reflexivity || lia).
        rewrite (lor_shiftl_small _ 6 l) by (change (2 ^ 6) with 64; lia).
        rewrite (lor_shiftl_small _ 12 (m * 2 ^ 6 + l))
          by (change (2 ^ 6) with 64; change (2 ^ 12) with 4096; lia).
        change (2 ^ 4) with 16. change (2 ^ 6) with 64.
        change (2 ^ 12) with 4096.
        replace ((224 + h) mod 16) with h by (Z.div_mod_to_equations; lia).
        assert (Hv : (h = 0 -> 32 <= m) /\ (h = 13 -> m < 32))
          by (destruct Hr; lia).
        decide_tests; rewrite !inRange_ascii by lia; decide_tests; simpl;
          f_equal; f_equal; lia.
      * rewrite !Z.shiftr_div_pow2 by lia. change (2 ^ 6) with 64.
        change (2 ^ 12) with 4096. change (2 ^ 18) with 262144.
        rewrite !cont_byte.
        assert (Hmax : r <= 1114111) by (destruct Hr; lia).
        rewrite (lor_const 240 30 3 (r / 262144)) by
          (reflexivity || lia || (change (2 ^ 3) with 8; Z.div_mod_to_equations; lia)).
        assert (Hh : 0 <= r / 262144 < 5) by (Z.div_mod_to_equations; lia).
        assert (Ha : 0 <= (r / 4096) mod 64 < 64) by (Z.div_mod_to_equations; lia).
        assert (Hm : 0 <= (r / 64) mod 64 < 64) by (Z.div_mod_to_equations; lia).
        assert (Hl : 0 <= r mod 64 < 64) by (Z.div_mod_to_equations; lia).
        assert (Hrl : r = 262144 * (r / 262144) + 4096 * ((r / 4096) mod 64)
                          + 64 * ((r / 64) mod 64) + r mod 64)
          by (Z.div_mod_to_equations; lia).
        revert Hh Ha Hm Hl Hrl.
        generalize (r / 262144) ((r / 4096) mod 64) ((r / 64) mod 64) (r mod 64).
        intros h a m l Hh Ha Hm Hl Hrl.
        unfold bytes; simpl fold_right.
        change (String ?a (String ?b (String ?c (String ?d ""))) +:+ s)
          with (String a (String b (String c (String d s)))).
        unfold DecodeRune.
        rewrite (byteZ_ascii (240 + h)) by lia.
        rewrite (contBits_ascii a), (contBits_ascii m), (contBits_ascii l) by lia.
        rewrite (land_low (240 + h) 3 7) by (reflexivity || lia).
        rewrite (lor_shiftl_small _ 6 l) by (change (2 ^ 6) with 64; lia).
        rewrite (lor_shiftl_small _ 12 (m * 2 ^ 6 + l))
          by (change (2 ^ 6) with 64; change (2 ^ 12) with 4096; lia).
        rewrite (lor_shiftl_small _ 18 (a * 2 ^ 12 + (m * 2 ^ 6 + l)))
          by (change (2 ^ 6) with 64; change (2 ^ 12) with 4096;
              change (2 ^ 18) with 262144; lia).
        change (2 ^ 3) with 8. change (2 ^ 6) with 64.
        change (2 ^ 12) with 4096. change (2 ^ 18) with 262144.
        replace ((240 + h) mod 8) with h by (Z.div_mod_to_equations; lia).
        assert (Hv : (h = 0 -> 16 <= a) /\ (h = 4 -> a < 16)) by lia.
        decide_tests; rewrite !inRange_ascii by lia; decide_tests; simpl;
          f_equal; f_equal; lia.
Qed.

Lemma toRunes_loop_encodeAll (l : list rune) :
  List.Forall reader.validRune l ->
  forall n, (length l <= n)%nat ->
    reader.toRunes_loop n (reader.encodeAll l) = l.
Proof.
  induction 1 as [| r l Hr Hl IH]; intros n Hn.
  - destruct n; reflexivity.
  - destruct n as [| n]; [simpl in Hn; lia |].
    change (reader.encodeAll (r :: l))
      with (EncodeRune r +:+ reader.encodeAll l).
    simpl reader.toRunes_loop. rewrite (DecodeRune_EncodeRune r _ Hr).
    f_equal. apply IH. simpl in Hn. lia.
Qed.

Lemma length_EncodeRune (r : rune) : (1 <= String.length (EncodeRune r))%nat.
Proof.
  unfold EncodeRune.
  destruct (r <? 128)%Z; [simpl; lia |].
  destruct (r <? 2048)%Z; [simpl; lia |].
  destruct (r <? 65536)%Z; simpl; lia.
Qed.

Lemma length_encodeAll (l : list rune) :
  (length l <= String.length (reader.encodeAll l))%nat.
Proof.
  induction l as [| r l IH]; [simpl; lia |].
  change (reader.encodeAll (r :: l))
    with (EncodeRune r +:+ reader.encodeAll l).
  rewrite app_length_string. pose proof (length_EncodeRune r). simpl. lia.
Qed.

(** [[]rune(s)] of the text written rune by rune gives the runes back. *)
Lemma toRunes_encodeAll (l : list rune) :
  List.Forall reader.validRune l -> reader.toRunes (reader.encodeAll l) = l.
Proof.
  intros Hl. apply (toRunes_loop_encodeAll l Hl). apply length_encodeAll.
Qed.

(** *** Tokens on the list reader *)

Lemma Token_collect_token (rd : reader.Rd) (body rest : list rune) :
  List.Forall (fun r => reader.IsTerminal rd r = false) body ->
  reader.atTokenEnd rd rest ->
  forall b,
    reader.Token_collect rd (body ++ rest) b
    = (rest, b +:+ reader.encodeAll body).
Proof.
  intros Hbody Hend.
  induction Hbody as [| r body Hr Hbody IH]; intros b.
  - change (reader.encodeAll []) with "". rewrite app_empty_r.
    destruct rest as [| t rest]; [reflexivity |].
    simpl in *. now rewrite Hend.
  - simpl. rewrite Hr, IH.
    change (reader.encodeAll (r :: body))
      with (EncodeRune r +:+ reader.encodeAll body).
    now rewrite app_assoc_string.
Qed.

Lemma Token_token (rd : reader.Rd) (init : rune) (body rest : list rune) :
  init <> (-1)%Z ->
  reader.input rd = (body ++ rest)%list ->
  List.Forall (fun r => reader.IsTerminal rd r = false) body ->
  reader.atTokenEnd rd rest ->
  reader.Token init rd
  = Some (reader.setInput rest rd, Ok (reader.encodeAll (init :: body))).
Proof.
  intros Hinit Hin Hbody Hend. unfold reader.Token.
  rewrite Hin, (Token_collect_token rd body rest Hbody Hend).
  destruct (Z.eqb_spec init (-1)); [contradiction |]. reflexivity.
Qed.

(** The first byte of an encoding is the letter [u] for that letter only. *)
Lemma EncodeRune_not_u (r : rune) :
  reader.validRune r -> r <> 117%Z ->
  exists c s, EncodeRune r = String c s /\ Ascii.eqb c "u" = false.
Proof.
  intros Hr Hu. unfold EncodeRune.
  assert (Hc : forall v s, 0 <= v < 256 -> v <> 117 ->
            exists c s',
              bytes (Z.to_nat v :: s) = String c s' /\
              Ascii.eqb c "u" = false).
  { intros v s Hv Hne. eexists _, _. split; [reflexivity |].
    apply Ascii.eqb_neq. intros E.
    apply (f_equal byteZ) in E. rewrite byteZ_ascii in E by exact Hv.
    apply Hne. exact E. }
  destruct (Z.ltb_spec r 128).
  - apply Hc; [destruct Hr; lia | exact Hu].
  - destruct (Z.ltb_spec r 2048).
    + rewrite Z.shiftr_div_pow2 by lia. change (2 ^ 6) with 64.
      rewrite (lor_const 192 3 6 (r / 64)) by
        (reflexivity || lia || (change (2 ^ 6) with 64; Z.div_mod_to_equations; lia)).
      apply Hc; Z.div_mod_to_equations; lia.
    + destruct (Z.ltb_spec r 65536).
      * rewrite !Z.shiftr_div_pow2 by lia. change (2 ^ 12) with 4096.
        rewrite (lor_const 224 14 4 (r / 4096)) by
          (reflexivity || lia || (change (2 ^ 4) with 16; Z.div_mod_to_equations; lia)).
        apply Hc; Z.div_mod_to_equations; lia.
      * assert (Hmax : r <= 1114111) by (destruct Hr; lia).
        rewrite !Z.shiftr_div_pow2 by lia. change (2 ^ 18) with 262144.
        rewrite (lor_const 240 30 3 (r / 262144)) by
          (reflexivity || lia || (change (2 ^ 3) with 8; Z.div_mod_to_equations; lia)).
        apply Hc; Z.div_mod_to_equations; lia.
Qed.

Section ReadCharacter.

Variable charLiterals : gmap string rune.
Variable readUnicodeChar : string -> Z -> Result value.Any.

Let readCharacter :=
  reader.readCharacter reader.Rd reader.NextRune reader.Token charLiterals
    readUnicodeChar.

Lemma readCharacter_token (init r : rune) (body rest : list rune)
    (rd : reader.Rd) :
  reader.input rd = (r :: body ++ rest)%list ->
  r <> (-1)%Z ->
  List.Forall (fun r => reader.IsTerminal rd r = false) body ->
  reader.atTokenEnd rd rest ->
  readCharacter init rd
  = (let token := reader.encodeAll (r :: body) in
     match reader.toRunes token with
     | [c] => ret (value.Char c)
     | _ =>
         match charLiterals !! token with
         | Some v => ret (value.Char v)
         | None =>
             match token with
             | EmptyString => fun _ => None
             | String c rest =>
                 if Ascii.eqb c "u" then lift (readUnicodeChar rest 16)
                 else raise (errors_New
                               ("unsupported character: '\" +:+ token +:+ "'"))
             end
         end
     end) (reader.setInput rest rd).
Proof.
  intros Hin Hr Hbody Hend.
  unfold readCharacter, reader.readCharacter.
  rewrite (NextRune_cons r (body ++ rest) rd Hin).
  unfold bind at 1.
  rewrite (Token_token (reader.setInput (body ++ rest) rd) r body rest Hr
             (input_setInput _ _) Hbody Hend).
  reflexivity.
Qed.

End ReadCharacter.

(** X19.  A backslash followed by one character and then the end of the
    input, white space or a macro character reads as that character,
    whatever the character is (white space and macro characters included)
    and whatever the table of named characters holds. *)
Theorem readCharacter_single_rune (charLiterals : gmap string rune)
    (readUnicodeChar : string -> Z -> Result value.Any) (init : rune)
    (rd : reader.Rd) (r : rune) (rest : list rune) :
  reader.input rd = r :: rest ->
  reader.validRune r ->
  reader.atTokenEnd rd rest ->
  reader.readCharacter reader.Rd reader.NextRune reader.Token charLiterals
    readUnicodeChar init rd
  = Some (reader.setInput rest rd, Ok (value.Char r)).
Proof.
  intros Hin Hr Hend.
  rewrite (readCharacter_token charLiterals readUnicodeChar init r [] rest rd
             Hin ltac:(destruct Hr; lia) (List.Forall_nil _) Hend).
  cbv zeta.
  now rewrite (toRunes_encodeAll [r]
                 ltac:(constructor; [exact Hr | constructor])).
Qed.

(** The character [(] before a closing parenthesis, in a list such as
    [(\()]: the macro character after the backslash is the character
    read. *)
Lemma readCharacter_single_rune_witness :
  reader.readCharacter reader.Rd reader.NextRune reader.Token
    (<["(" := 0%Z]> ∅) (fun _ _ => Ok value.Nil) 92
    (reader.exampleReader "()")
  = Some (reader.setInput [41%Z] (reader.exampleReader "()"),
          Ok (value.Char 40)).
Proof.
  apply (readCharacter_single_rune (<["(" := 0%Z]> ∅)
           (fun _ _ => Ok value.Nil) 92 (reader.exampleReader "()")
           40%Z [41%Z]).
  - reflexivity.
  - left; lia.
  - reflexivity.
Defined.

(** X20.  A backslash followed by a longer token: a name in the table of
    named characters reads as the character of the table, also when it
    starts with [u]; any other token that starts with [u] is handed to
    [readUnicodeChar] without the [u], in base 16; every other token fails
    with [unsupported character]. *)
Theorem readCharacter_named (charLiterals : gmap string rune)
    (readUnicodeChar : string -> Z -> Result value.Any) (init : rune)
    (rd : reader.Rd) (r r1 : rune) (body rest : list rune) :
  reader.input rd = (r :: (r1 :: body) ++ rest)%list ->
  List.Forall reader.validRune (r :: r1 :: body) ->
  List.Forall (fun r => reader.IsTerminal rd r = false) (r1 :: body) ->
  reader.atTokenEnd rd rest ->
  let token := reader.encodeAll (r :: r1 :: body) in
  let result :=
    reader.readCharacter reader.Rd reader.NextRune reader.Token charLiterals
      readUnicodeChar init rd in
  (forall v, charLiterals !! token = Some v ->
             result = Some (reader.setInput rest rd, Ok (value.Char v))) /\
  (charLiterals !! token = None -> r = 117%Z ->
   result = Some (reader.setInput rest rd,
                  readUnicodeChar (reader.encodeAll (r1 :: body)) 16)) /\
  (charLiterals !! token = None -> r <> 117%Z ->
   result = Some (reader.setInput rest rd,
                  Err (errors_New
                         ("unsupported character: '\" +:+ token +:+ "'")))).
Proof.
  intros Hin Hvalid Hbody Hend token result. subst token result.
  rewrite (readCharacter_token charLiterals readUnicodeChar init r
             (r1 :: body) rest rd Hin
             ltac:(inversion Hvalid as [| ? ? [? | ?] ?]; lia) Hbody Hend).
  cbv zeta.
  rewrite (toRunes_encodeAll (r :: r1 :: body) Hvalid).
  repeat split.
  - intros v ->. reflexivity.
  - intros -> ->. reflexivity.
  - intros -> Hu.
    destruct (EncodeRune_not_u r ltac:(now inversion Hvalid) Hu)
      as (c & s & Hc & Hne).
    change (reader.encodeAll (r :: r1 :: body))
      with (EncodeRune r +:+ reader.encodeAll (r1 :: body)).
    rewrite Hc. generalize (reader.encodeAll (r1 :: body)). intros t.
    change (String c s +:+ t) with (String c (s +:+ t)). cbv iota.
    now rewrite Hne.
Qed.

(** The tokens [newline] and [up] with both names in the table, [u00AE]
    and [hello] with neither. *)
Lemma readCharacter_named_witness :
  reader.readCharacter reader.Rd reader.NextRune reader.Token
    (<["newline" := 10%Z]> (<["up" := 8593%Z]> ∅))
    (fun digits base => Ok (value.String digits)) 92
    (reader.exampleReader "up")
  = Some (reader.setInput [] (reader.exampleReader "up"),
          Ok (value.Char 8593)) /\
  reader.readCharacter reader.Rd reader.NextRune reader.Token
    (<["newline" := 10%Z]> (<["up" := 8593%Z]> ∅))
    (fun digits base => Ok (value.String digits)) 92
    (reader.exampleReader "u00AE")
  = Some (reader.setInput [] (reader.exampleReader "u00AE"),
          Ok (value.String "00AE")) /\
  reader.readCharacter reader.Rd reader.NextRune reader.Token
    (<["newline" := 10%Z]> (<["up" := 8593%Z]> ∅))
    (fun digits base => Ok (value.String digits)) 92
    (reader.exampleReader "hello")
  = Some (reader.setInput [] (reader.exampleReader "hello"),
          Err (errors_New "unsupported character: '\hello'")).
Proof.
  split; [| split].
  - apply (proj1 (readCharacter_named
                    (<["newline" := 10%Z]> (<["up" := 8593%Z]> ∅))
                    (fun digits base => Ok (value.String digits)) 92
                    (reader.exampleReader "up") 117%Z 112%Z [] []
                    eq_refl
                    ltac:(repeat (apply List.Forall_cons; [left; lia |]);
                          apply List.Forall_nil)
                    ltac:(repeat constructor) I)).
    reflexivity.
  - apply (proj1 (proj2 (readCharacter_named
                    (<["newline" := 10%Z]> (<["up" := 8593%Z]> ∅))
                    (fun digits base => Ok (value.String digits)) 92
                    (reader.exampleReader "u00AE") 117%Z 48%Z
                    [48; 65; 69]%Z []
                    eq_refl
                    ltac:(repeat (apply List.Forall_cons; [left; lia |]);
                          apply List.Forall_nil)
                    ltac:(repeat constructor) I)));
      reflexivity.
  - apply (proj2 (proj2 (readCharacter_named
                    (<["newline" := 10%Z]> (<["up" := 8593%Z]> ∅))
                    (fun digits base => Ok (value.String digits)) 92
                    (reader.exampleReader "hello") 104%Z 101%Z
                    [108; 108; 111]%Z []
                    eq_refl
                    ltac:(repeat (apply List.Forall_cons; [left; lia |]);
                          apply List.Forall_nil)
                    ltac:(repeat constructor) I)));
      [reflexivity | discriminate].
Defined.

(** ** Keywords *)

Lemma Token_keyword (rd : reader.Rd) (body rest : list rune) :
  reader.input rd = (body ++ rest)%list ->
  List.Forall (fun r => reader.IsTerminal rd r = false) body ->
  reader.atTokenEnd rd rest ->
  reader.Token (-1) rd
  = Some (reader.setInput rest rd, Ok (reader.encodeAll body)).
Proof.
  intros Hin Hbody Hend. unfold reader.Token.
  rewrite Hin, (Token_collect_token rd body rest Hbody Hend).
  reflexivity.
Qed.

(** X21.  A keyword is the text between its colon and the next terminal
    character, which stays in the input: the colon is not part of the name,
    and a colon right before a terminal character or the end of the input
    reads as the keyword with the empty name, without an error. *)
Theorem readKeyword_name (init : rune) (rd : reader.Rd)
    (body rest : list rune) :
  reader.input rd = (body ++ rest)%list ->
  List.Forall (fun r => reader.IsTerminal rd r = false) body ->
  reader.atTokenEnd rd rest ->
  reader.readKeyword reader.Rd reader.Token init rd
  = Some (reader.setInput rest rd,
          Ok (value.Keyword (reader.encodeAll body))).
Proof.
  intros Hin Hbody Hend. unfold reader.readKeyword, bind.
  now rewrite (Token_keyword rd body rest Hin Hbody Hend).
Qed.

(** The text [hello x] after the colon, and a colon before a closing
    parenthesis. *)
Lemma readKeyword_name_witness :
  reader.readKeyword reader.Rd reader.Token 58 (reader.exampleReader "hello x")
  = Some (reader.setInput [32; 120]%Z (reader.exampleReader "hello x"),
          Ok (value.Keyword "hello")) /\
  reader.readKeyword reader.Rd reader.Token 58 (reader.exampleReader ")")
  = Some (reader.setInput [41]%Z (reader.exampleReader ")"),
          Ok (value.Keyword "")).
Proof.
  split.
  - apply (readKeyword_name 58 (reader.exampleReader "hello x")
             [104; 101; 108; 108; 111]%Z [32; 120]%Z).
    + reflexivity.
    + repeat constructor.
    + reflexivity.
  - apply (readKeyword_name 58 (reader.exampleReader ")") [] [41]%Z).
    + reflexivity.
    + constructor.
    + reflexivity.
Defined.

(** ** Symbols and the table of predefined symbols *)

Lemma dropSpaces_nonspace (r : rune) (l : list rune) :
  reader.isSpace r = false -> reader.dropSpaces (r :: l) = r :: l.
Proof. intros H. simpl. now rewrite H. Qed.

Lemma IsTerminal_false (rd : reader.Rd) (r : rune) :
  reader.IsTerminal rd r = false ->
  reader.isSpace r = false /\ reader.macros rd !! r = None.
Proof.
  unfold reader.IsTerminal. intros H.
  apply orb_false_iff in H as [Hs Hm]. split; [exact Hs |].
  apply bool_decide_eq_false in Hm.
  destruct (reader.macros rd !! r) eqn:E; [| reflexivity].
  exfalso. apply Hm. eauto.
Qed.

(** X22.  [WithPredefinedSymbols] replaces the table of the reader: with a nil
    map the table is [nil], [true] and [false]; with any other map nothing
    of the former table is left.  A symbol read by [One] is then the value
    the table has for its name, and the Symbol itself when the table has
    none, so [true] reads as a Symbol under a map without it. *)
Theorem One_symbol_predefined (n : nat)
    (ss : option (gmap string value.Any)) (rd : reader.Rd) (r : rune)
    (body rest : list rune) :
  reader.input rd = (r :: body ++ rest)%list ->
  r <> (-1)%Z ->
  List.Forall (fun r => reader.IsTerminal rd r = false) (r :: body) ->
  reader.atTokenEnd rd rest ->
  reader.startsNumber r (body ++ rest) = false ->
  let name := reader.encodeAll (r :: body) in
  let table := reader.predef (reader.WithPredefinedSymbols ss rd) in
  table = default (<["nil" := value.Nil]>
                     (<["true" := value.Bool true]>
                        (<["false" := value.Bool false]> ∅))) ss /\
  exists rd',
    reader.One (2 + n) (reader.WithPredefinedSymbols ss rd)
    = Some (rd', Ok (default (value.Symbol name) (table !! name))) /\
    reader.input rd' = rest.
Proof.
  intros Hin Hr Hbody Hend Hnum name table.
  split; [destruct ss; reflexivity |].
  inversion Hbody as [| ? ? Hr0 Hbody']; subst.
  destruct (IsTerminal_false rd r Hr0) as [Hspace Hmacro].
  set (rd0 := reader.WithPredefinedSymbols ss rd).
  exists (reader.setInput rest
            (reader.setInput (body ++ rest) (reader.SkipSpaces rd0))).
  split; [| reflexivity].
  change (2 + n)%nat with (S (S n)).
  cbn [reader.One reader.readOne]. unfold reader.One_body.
  unfold reader.readOne_body. cbv zeta.
  assert (Hskip : reader.input (reader.SkipSpaces rd0) = r :: body ++ rest).
  { unfold reader.SkipSpaces. rewrite input_setInput.
    change (reader.input rd0) with (reader.input rd). rewrite Hin.
    apply dropSpaces_nonspace, Hspace. }
  rewrite Hskip, Hnum.
  change (reader.macros rd0) with (reader.macros rd). rewrite Hmacro.
  unfold reader.readSymbol. unfold bind.
  rewrite (Token_token (reader.setInput (body ++ rest) (reader.SkipSpaces rd0))
             r body rest Hr (input_setInput _ _) Hbody' Hend).
  unfold ret. fold name.
  destruct (reader.predef rd0 !! name) eqn:E; subst table; fold rd0;
    rewrite E; reflexivity.
Qed.

(** The text [true] under the default table and under an empty one. *)
Lemma One_symbol_predefined_witness :
  (exists rd',
      reader.One 2 (reader.WithPredefinedSymbols None
                      (reader.exampleReader "true"))
      = Some (rd', Ok (value.Bool true)) /\ reader.input rd' = []) /\
  (exists rd',
      reader.One 2 (reader.WithPredefinedSymbols (Some ∅)
                      (reader.exampleReader "true"))
      = Some (rd', Ok (value.Symbol "true")) /\ reader.input rd' = []).
Proof.
  split.
  - exact (proj2 (One_symbol_predefined 0 None (reader.exampleReader "true")
                    116%Z [114; 117; 101]%Z [] eq_refl
                    ltac:(discriminate) ltac:(repeat constructor) I
                    eq_refl)).
  - exact (proj2 (One_symbol_predefined 0 (Some ∅)
                    (reader.exampleReader "true")
                    116%Z [114; 117; 101]%Z [] eq_refl
                    ltac:(discriminate) ltac:(repeat constructor) I
                    eq_refl)).
Defined.

(** ** Numbers *)

Lemma EncodeRune_ascii (r : rune) :
  0 <= r < 128 -> EncodeRune r = String (ascii_of_nat (Z.to_nat r)) "".
Proof.
  intros Hr. unfold EncodeRune.
  destruct (Z.ltb_spec r 128); [reflexivity | lia].
Qed.

Lemma ContainsRune_encodeAll (l : list rune) (c : ascii) :
  List.Forall (fun r => 0 <= r < 128) l ->
  reader.ContainsRune (reader.encodeAll l) c
  = existsb (Z.eqb (byteZ c)) l.
Proof.
  unfold reader.ContainsRune.
  induction 1 as [| r l Hr Hl IH]; [reflexivity |].
  change (reader.encodeAll (r :: l))
    with (EncodeRune r +:+ reader.encodeAll l).
  rewrite (EncodeRune_ascii r Hr).
  change (String ?a "" +:+ ?s) with (String a s).
  cbn [list_ascii_of_string existsb]. rewrite IH. f_equal.
  destruct (Ascii.eqb_spec c (ascii_of_nat (Z.to_nat r))) as [-> | Hne].
  - rewrite byteZ_ascii by lia. symmetry. apply Z.eqb_refl.
  - symmetry. apply Z.eqb_neq. intros E. apply Hne.
    rewrite <- E. unfold byteZ. rewrite Nat2Z.id.
    now rewrite ascii_nat_embedding.
Qed.

(** X23.  A number token that holds the letter [e] and no [r] is handed to
    [parseScientific], whose result is the result: neither
    [strconv.ParseInt] nor [strconv.ParseFloat] nor [parseRadix] has a say.
    A hexadecimal literal with the lower-case digit [e], such as [0x1e], is
    therefore not read as an integer. *)
Theorem readNumber_exponent_marker_wins
    (parseScientific parseRadix : string -> Result value.Any)
    (strconv_ParseFloat : string -> Z -> Result Z)
    (strconv_ParseInt : string -> Z -> Z -> Result Z)
    (init : rune) (rd : reader.Rd) (body rest : list rune) :
  reader.input rd = (body ++ rest)%list ->
  List.Forall (fun r => 0 <= r < 128) (init :: body) ->
  List.Forall (fun r => reader.IsTerminal rd r = false) body ->
  reader.atTokenEnd rd rest ->
  existsb (Z.eqb 101) (init :: body) = true ->
  existsb (Z.eqb 114) (init :: body) = false ->
  reader.readNumber reader.Rd reader.Token parseScientific parseRadix
    strconv_ParseFloat strconv_ParseInt init rd
  = Some (reader.setInput rest rd,
          parseScientific (reader.encodeAll (init :: body))).
Proof.
  intros Hin Hascii Hbody Hend He Hr.
  unfold reader.readNumber. unfold bind at 1.
  rewrite (Token_token rd init body rest
             ltac:(inversion Hascii; lia) Hin Hbody Hend).
  cbv zeta.
  rewrite !(ContainsRune_encodeAll (init :: body)) by exact Hascii.
  change (byteZ "e") with 101. change (byteZ "r") with 114.
  rewrite He, Hr. reflexivity.
Qed.

(** The literal [0x1e], which [strconv.ParseInt] takes for 30. *)
Lemma readNumber_exponent_marker_wins_witness :
  reader.ParseInt "0x1e" 0 64 = Ok 30%Z /\
  reader.readNumber reader.Rd reader.Token reader.noScientific
    reader.parseRadix reader.noFloat reader.ParseInt 48
    (reader.exampleReader "x1e")
  = Some (reader.setInput [] (reader.exampleReader "x1e"),
          Err (Error ErrNumberFormat "" "0x1e" 0)).
Proof.
  split; [reflexivity |].
  apply (readNumber_exponent_marker_wins reader.noScientific
           reader.parseRadix reader.noFloat reader.ParseInt 48
           (reader.exampleReader "x1e") [120; 49; 101]%Z []).
  - reflexivity.
  - repeat (apply List.Forall_cons; [lia |]). apply List.Forall_nil.
  - repeat constructor.
  - exact I.
  - reflexivity.
  - reflexivity.
Defined.

(** * Further properties of the options *)

Lemma WithGlobals_lookup (bindings : gmap string value.Any) (env : Env)
    (k : string) :
  globals (WithGlobals bindings env) !! k
  = match bindings !! k with
    | Some v => Some v
    | None => globals env !! k
    end.
Proof.
  unfold WithGlobals. cbn [globals]. revert k.
  apply (map_fold_weak_ind
           (fun (r : gmap string value.Any) (m : gmap string value.Any) =>
              forall k, r !! k = match m !! k with
                                 | Some v => Some v
                                 | None => globals env !! k
                                 end)).
  - intros k. now rewrite lookup_empty.
  - intros i x m r _ IH k. destruct (decide (i = k)) as [-> | Hne].
    + now rewrite !lookup_insert_eq.
    + rewrite !lookup_insert_ne by exact Hne. apply IH.
Qed.

(** X24.  [WithGlobals] stores every given pair into the global store and
    touches nothing else: a given name has the given value, replacing a value
    it had before, every other name keeps the value it had, and the result
    does not depend on the order in which the given map is walked.  The call
    stack and the depth bound are left as they were. *)
Theorem WithGlobals_overrides_and_keeps (bindings : gmap string value.Any)
    (env : Env) :
  globals (WithGlobals bindings env) = bindings ∪ globals env /\
  stack (WithGlobals bindings env) = stack env /\
  maxDepth (WithGlobals bindings env) = maxDepth env.
Proof.
  split; [| split; reflexivity].
  apply map_eq. intros k. rewrite WithGlobals_lookup.
  rewrite lookup_union. destruct (bindings !! k), (globals env !! k);
    reflexivity.
Qed.

(** X25.  A name given to [WithGlobals] with a value evaluates, as a symbol,
    to that value in the configured environment, whatever it was bound to
    before, unless the current frame has a local binding of it. *)
Theorem WithGlobals_symbol_evaluates Invoke Sprintf_s ba (n : nat)
    (bindings : gmap string value.Any) (env : Env) (k : string)
    (v : value.Any) :
  bindings !! k = Some v ->
  v <> value.nilAny ->
  notShadowed k env ->
  Env_Eval identityExpander Invoke Sprintf_s ba (2 + n)
    (value.Symbol k) (WithGlobals bindings env)
  = Some (WithGlobals bindings env, Ok v).
Proof.
  intros Hk Hv Hshadow.
  assert (Hres : resolve k (WithGlobals bindings env) = v).
  { unfold resolve. rewrite WithGlobals_lookup, Hk.
    change (stack (WithGlobals bindings env)) with (stack env).
    unfold notShadowed in Hshadow.
    destruct (stack env) as [| frame frames]; [reflexivity |].
    now rewrite Hshadow. }
  rewrite Env_Eval_symbol; rewrite Hres; [reflexivity | exact Hv].
Qed.

(** The name [seven] of the example environment, rebound to 8. *)
Lemma WithGlobals_symbol_evaluates_witness :
  exampleEval 2 (value.Symbol "seven")
    (WithGlobals (<["seven" := value.Int64 8]> ∅) exampleEnv)
  = Some (WithGlobals (<["seven" := value.Int64 8]> ∅) exampleEnv,
          Ok (value.Int64 8)).
Proof.
  apply (WithGlobals_symbol_evaluates exampleInvoke exampleSprintf
           defaultAnalyzer 0 (<["seven" := value.Int64 8]> ∅) exampleEnv
           "seven" (value.Int64 8)).
  - reflexivity.
  - discriminate.
  - exact I.
Defined.

(** X26.  [WithMaxDepth] panics for depth 0 and for no other depth.  A depth
    below 2^63 becomes the bound as it is, so a frame can be pushed exactly
    while the stack is shorter than the depth; a depth from 2^63 on, which
    [uint] holds and [int] does not, becomes a negative bound, under which no
    frame can be pushed, not even onto an empty stack. *)
Theorem WithMaxDepth_bound (depth : Z) :
  (0 <= depth < 2 ^ 64)%Z ->
  (WithMaxDepth depth = None <-> depth = 0%Z) /\
  (forall opt env frame,
      WithMaxDepth depth = Some opt ->
      globals (opt env) = globals env /\ stack (opt env) = stack env /\
      ((depth < 2 ^ 63)%Z ->
       maxDepth (opt env) = depth /\
       (snd (push frame (opt env)) = None
        <-> (Z.of_nat (length (stack env)) < depth)%Z)) /\
      ((2 ^ 63 <= depth)%Z ->
       (maxDepth (opt env) < 0)%Z /\
       snd (push frame (opt env)) = Some ErrStackDepth)).
Proof.
  intros Hd. unfold WithMaxDepth. split.
  - destruct (Z.eqb_spec depth 0); split; intros H; congruence.
  - intros opt env frame Hopt.
    destruct (Z.eqb_spec depth 0) as [| Hne]; [discriminate |].
    injection Hopt as <-. cbn [globals stack maxDepth].
    split; [reflexivity |]. split; [reflexivity |].
    unfold push, intOfUint. cbn [globals stack maxDepth].
    split; intros Hlt.
    + destruct (Z.ltb_spec depth (2 ^ 63)); [| lia].
      split; [reflexivity |].
      destruct (Z.leb_spec depth (Z.of_nat (length (stack env))));
        cbn [snd]; split; intros H'; (congruence || lia).
    + destruct (Z.ltb_spec depth (2 ^ 63)); [lia |].
      split; [lia |].
      destruct (Z.leb_spec (depth - 2 ^ 64) (Z.of_nat (length (stack env))));
        [reflexivity | lia].
Qed.

(** The default depth 10000 of [withDefaults] on the example environment,
    whose stack is empty. *)
Lemma WithMaxDepth_bound_witness :
  (WithMaxDepth 10000 = None <-> 10000%Z = 0%Z) /\
  (forall opt env frame,
      WithMaxDepth 10000 = Some opt ->
      globals (opt env) = globals env /\ stack (opt env) = stack env /\
      ((10000 < 2 ^ 63)%Z ->
       maxDepth (opt env) = 10000%Z /\
       (snd (push frame (opt env)) = None
        <-> (Z.of_nat (length (stack env)) < 10000)%Z)) /\
      ((2 ^ 63 <= 10000)%Z ->
       (maxDepth (opt env) < 0)%Z /\
       snd (push frame (opt env)) = Some ErrStackDepth)).
Proof.
  apply (WithMaxDepth_bound 10000). lia.
Defined.
